(** * The plaso file collector (plaso/lib/collector.py)

    A shallow embedding of the collector classes: the [Collector] interface
    with [Run] and [Close], [SimpleImageCollector] with its directory walk
    [ParseImageDir], the VSS store selection [GetVssStores], the timestamp
    fingerprint [CalculateNTFSTimeHash], and [TargetedImageCollector].

    Python code that raises, mutates [self] and writes to the queue and to the
    log becomes a computation in a small monad: it takes the mutable state
    ([self._hashlist] and the read faults of the image), and gives an outcome
    (a value or a raised exception), the new state, and the trace of what it
    did to the outside world. The recursion of the directory walk has the
    depth that Python leaves it: a call beyond that depth raises
    RuntimeError. *)

From Stdlib Require Import Ascii String.
From stdpp Require Import base option list list_numbers sorting gmap strings pretty.

Local Open Scope Z_scope.

(** ** pytsk3 objects as the collector reads them *)

(** Reading an attribute gives a value or raises AttributeError. *)
Inductive attr (A : Type) : Type :=
| Attr (a : A)
| NoAttr.
Arguments Attr {A} a.
Arguments NoAttr {A}.

(** [f.info.name]: a TSK_FS_NAME. *)
Record TSK_FS_NAME := {
  name_name : attr string;
  name_flags : attr Z;
}.

(** [f.info.meta]: a TSK_FS_META. The timestamps are read with
    [getattr(meta, 'atime', 0)], so each may be missing. *)
Record TSK_FS_META := {
  meta_addr : attr Z;
  meta_type : attr Z;
  atime : option Z;
  atime_nano : option Z;
  crtime : option Z;
  crtime_nano : option Z;
  mtime : option Z;
  mtime_nano : option Z;
  ctime : option Z;
  ctime_nano : option Z;
}.

(** A directory entry [f]: [f.info.name] and [f.info.meta] are each None or
    an object, and reading either may raise AttributeError. *)
Record TSK_FS_FILE := {
  info_name : attr (option TSK_FS_NAME);
  info_meta : attr (option TSK_FS_META);
}.

Definition TSK_FS_NAME_FLAG_UNALLOC : Z := 2.
Definition TSK_FS_META_TYPE_REG : Z := 1.
Definition TSK_FS_META_TYPE_DIR : Z := 2.

(** A pfile.CacheFileSystem: the open volume [fs.fs] (its directories by
    inode, and [fs.fs.info.root_inum]) with [fs.store_nr], [fs.path] and
    [fs.offset]. An inode that is no directory of the volume never opens. *)
Record CacheFileSystem := {
  fs_dirs : gmap Z (list TSK_FS_FILE);
  fs_root_inum : Z;
  fs_store_nr : Z;
  fs_path : string;
  fs_offset : Z;
}.

(** event.EventPathSpec, with the fields the collector sets. *)
Record EventPathSpec := {
  type : string;
  vss_store_number : option Z;
  container_path : string;
  image_offset : Z;
  image_inode : Z;
  file_path : string;
}.

(** ** Exceptions, state, trace *)

(** The exceptions of the module: those it raises, those it catches, and
    RuntimeError, which Python raises for a recursion that is too deep
    (maximum recursion depth exceeded) and no except clause of the module
    names. *)
Inductive exn : Type :=
| IOError
| AttributeError
| NameError (name : string)
| UnboundLocalError (name : string)
| UnableToOpenFilesystem
| RuntimeError.

Global Instance exn_eq_dec : EqDecision exn.
Proof. solve_decision. Defined.

Inductive log_level : Type := DEBUG | INFO | WARNING | ERROR.

(** What goes into the queue: [transfer_proto.ToProtoString()] of the image
    walk, or a pathspec string of the collection filter. *)
Inductive queue_item : Type :=
| ProtoString (p : EventPathSpec)
| PathSpecString (s : string).

(** The collectors handed to collector_filter.CollectionFilter. *)
Inductive preprocess_collector : Type :=
| TSKFileCollector (image : string) (offset : Z)
| VSSFileCollector (image : string) (store_nr : Z) (offset : Z).

(** What a collector does to its surroundings. A log record keeps the level
    and the format string. *)
Inductive event : Type :=
| EvQueue (item : queue_item)
| EvClose
| EvOpen (image : string) (offset : Z) (store_nr : option Z)
| EvOpenDir (store_nr : Z) (inode : Z)
| EvVssStoreCount (image : string) (offset : Z)
| EvGetPathSpecs (c : preprocess_collector) (file_filter : string)
| EvLog (level : log_level) (fmt : string).

(** The mutable state: [self._hashlist] (None until Collect sets the
    attribute), and for every directory of every volume, keyed by store number
    and inode, how many of the next attempts to open it fail with IOError. *)
Record State := mkState {
  hashlist : option (gmap Z (list string));
  io_faults : gmap (Z * Z) nat;
}.

(** How a computation ends. [Diverge] is the outcome of a computation that
    does not end; with the depth of the walk bounded, no method of the
    collectors of this module has it. *)
Inductive outcome (A : Type) : Type :=
| Return (a : A)
| Raise (e : exn)
| Diverge.
Arguments Return {A} a.
Arguments Raise {A} e.
Arguments Diverge {A}.

Definition M (A : Type) : Type := State → outcome A * State * list event.

Definition ret {A} (a : A) : M A := λ s, (Return a, s, []).

Definition bind {A B} (m : M A) (k : A → M B) : M B := λ s,
  match m s with
  | (Return a, s1, t1) =>
      match k a s1 with (o, s2, t2) => (o, s2, t1 ++ t2) end
  | (Raise e, s1, t1) => (Raise e, s1, t1)
  | (Diverge, s1, t1) => (Diverge, s1, t1)
  end.

Definition raise {A} (e : exn) : M A := λ s, (Raise e, s, []).
Definition emit (ev : event) : M unit := λ s, (Return tt, s, [ev]).
Definition get_state : M State := λ s, (Return s, s, []).
Definition put_state (s' : State) : M unit := λ _, (Return tt, s', []).

Global Instance M_ret : MRet M := @ret.
Global Instance M_bind : MBind M := λ A B k m, bind m k.

(** [try: m except E: ...] for the exceptions [catches] selects: the handler
    gets [inl e]. *)
Definition try_except {A} (m : M A) (catches : exn → bool) : M (exn + A) := λ s,
  match m s with
  | (Return a, s1, t1) => (Return (inr a), s1, t1)
  | (Raise e, s1, t1) =>
      if catches e then (Return (inl e), s1, t1) else (Raise e, s1, t1)
  | (Diverge, s1, t1) => (Diverge, s1, t1)
  end.

(** [try: m finally: fin]. *)
Definition try_finally {A} (m : M A) (fin : M unit) : M A := λ s,
  match m s with
  | (Diverge, s1, t1) => (Diverge, s1, t1)
  | (o, s1, t1) =>
      match fin s1 with
      | (Return _, s2, t2) => (o, s2, t1 ++ t2)
      | (Raise e, s2, t2) => (Raise e, s2, t1 ++ t2)
      | (Diverge, s2, t2) => (Diverge, s2, t1 ++ t2)
      end
  end.

(** [for x in l: body(x)]. *)
Fixpoint for_each {A} (l : list A) (body : A → M unit) : M unit :=
  match l with
  | [] => ret tt
  | x :: l' => body x;; for_each l' body
  end.

(** [for x in l: body], the body updating the loop's local variables. *)
Fixpoint for_loop {A L} (l : list A) (body : A → L → M L) (locals : L) : M L :=
  match l with
  | [] => ret locals
  | x :: l' => locals' ← body x locals; for_loop l' body locals'
  end.

Definition logging (level : log_level) (fmt : string) : M unit :=
  emit (EvLog level fmt).

(** The items put on the queue, and the number of times it was closed. *)
Definition queued (t : list event) : list queue_item :=
  omap (λ ev, match ev with EvQueue i => Some i | _ => None end) t.

Definition closes (t : list event) : list unit :=
  omap (λ ev, match ev with EvClose => Some tt | _ => None end) t.

(** The snapshot stores opened through the cache, in order. *)
Definition stores_opened (t : list event) : list Z :=
  omap (λ ev, match ev with EvOpen _ _ (Some nr) => Some nr | _ => None end) t.

(** ** Python and library helpers *)

(** [a or b] on integers. *)
Definition py_or (a b : Z) : Z := if a =? 0 then b else a.

(** [range(0, n)]. *)
Definition range0 (n : Z) : list Z := seqZ 0 n.

Fixpoint endswith_sep (s : string) : bool :=
  match s with
  | EmptyString => false
  | String c EmptyString => bool_decide (c = "/"%char)
  | String _ s' => endswith_sep s'
  end.

Definition startswith_sep (s : string) : bool :=
  match s with
  | String c _ => bool_decide (c = "/"%char)
  | EmptyString => false
  end.

Definition os_path_sep : string := "/".

(** posixpath.join of two components. *)
Definition os_path_join (a b : string) : string :=
  if startswith_sep b then b
  else if bool_decide (a = "") || endswith_sep a then a +:+ b
  else a +:+ "/" +:+ b.

(** utils.GetUnicodeString on a string that already is one. *)
Definition GetUnicodeString (s : string) : string := s.

(** [getattr(meta, field, 0)]. *)
Definition getattr (field : option Z) (dflt : Z) : Z := default dflt field.

(** [fs.fs.open_dir(inode=cur_inode)]: raises IOError while a read fault is
    pending for the directory (using it up) or when the inode is no directory
    of the volume. *)
Definition open_dir (fs : CacheFileSystem) (inode : Z) : M (list TSK_FS_FILE) := λ s,
  let key := (fs_store_nr fs, inode) in
  match default 0%nat (io_faults s !! key) with
  | S n =>
      (Raise IOError,
       {| hashlist := hashlist s; io_faults := <[key := n]> (io_faults s) |},
       [EvOpenDir (fs_store_nr fs) inode])
  | O =>
      match fs_dirs fs !! inode with
      | Some directory => (Return directory, s, [EvOpenDir (fs_store_nr fs) inode])
      | None => (Raise IOError, s, [EvOpenDir (fs_store_nr fs) inode])
      end
  end.

Definition is_IOError (e : exn) : bool := bool_decide (e = IOError).
Definition is_UnableToOpenFilesystem (e : exn) : bool :=
  bool_decide (e = UnableToOpenFilesystem).

(** The try block of the entry loop of ParseImageDir, lines 239 to 254: it ends
    in a [continue], in an AttributeError (with [name_str] as it is bound at
    that point: the local keeps its value from earlier entries of the same
    call), or with [name_str], [inode_addr] and [f_type] bound. *)
Inductive entry_read : Type :=
| ReadContinue
| ReadAttributeError (name_str : option string)
| ReadBound (name_str : string) (inode_addr f_type : Z) (meta : TSK_FS_META).

Definition read_entry (f : TSK_FS_FILE) (name_str : option string) : entry_read :=
  match info_name f with
  | NoAttr => ReadAttributeError name_str
  | Attr None => ReadContinue
  | Attr (Some tsk_name) =>
      match name_flags tsk_name with
      | NoAttr => ReadAttributeError name_str
      | Attr flags =>
          if flags =? TSK_FS_NAME_FLAG_UNALLOC then ReadContinue
          else
            match info_meta f with
            | NoAttr => ReadAttributeError name_str
            | Attr None => ReadContinue
            | Attr (Some meta) =>
                match name_name tsk_name with
                | NoAttr => ReadAttributeError name_str
                | Attr name_str' =>
                    match meta_addr meta, meta_type meta with
                    | Attr inode_addr, Attr f_type =>
                        ReadBound name_str' inode_addr f_type meta
                    | _, _ => ReadAttributeError (Some name_str')
                    end
                end
            end
      end
  end.

(** ** What the module takes from its surroundings at run time *)

(** [md5_hexdigest] is hashlib's MD5 of a string, as hex digits;
    [GetVssStoreCount] is vss.GetVssStoreCount; [GetPathSpecs] is what
    collector_filter.CollectionFilter(collector, file_filter).GetPathSpecs()
    yields. [global_vss_numbers] is the value the free name [vss_numbers] has
    in the module namespace of collector.py when a Collect method reads it,
    None when the name is unbound there. *)
Class Runtime := {
  md5_hexdigest : string → string;
  GetVssStoreCount : string → Z → Z;
  GetPathSpecs : preprocess_collector → string → list string;
  global_vss_numbers : option Z;
}.

(** collector.py as it is written: no statement of the module binds
    [vss_numbers] (it is a local of GetVssStores only). *)
Definition collector_py (md5 : string → string) (count : string → Z → Z)
    (specs : preprocess_collector → string → list string) : Runtime :=
  {| md5_hexdigest := md5; GetVssStoreCount := count; GetPathSpecs := specs;
     global_vss_numbers := None |}.

(** ** The collectors *)

(** The attributes of a SimpleImageCollector. [_fscache] is the cache's Open:
    image path, byte offset and store number (None when the call passes
    none) to a file system, or None for UnableToOpenFilesystem. *)
Record SimpleImageCollector := {
  _image : string;
  _offset : Z;
  _offset_bytes : Z;
  _vss : bool;
  _vss_stores : option (list Z);
  _fscache : string → Z → option Z → option CacheFileSystem;
}.

(** A TargetedImageCollector is a SimpleImageCollector with a filter file
    (and a preprocessing object that is only handed on). *)
Record TargetedImageCollector := {
  super : SimpleImageCollector;
  _file_filter : string;
}.

Definition SECTOR_SIZE : Z := 512.

(** The interface: a collector has a Collect method. The first argument bounds
    the depth of the recursion of the directory walk. *)
Class Collector (T : Type) := Collect : nat → T → M unit.

(** [self._queue.Queue(item)] and [self._queue.Close()]. *)
Definition Queue (item : queue_item) : M unit := emit (EvQueue item).
Definition Close : M unit := emit EvClose.

Definition Run {T} `{Collector T} (fuel : nat) (self : T) : M unit :=
  Collect fuel self;;
  Close.

Section collector.
Context `{Runtime}.

Definition CalculateNTFSTimeHash (meta : TSK_FS_META) : string :=
  md5_hexdigest
    (("atime:" +:+ pretty (getattr (atime meta) 0) +:+ "."
        +:+ pretty (getattr (atime_nano meta) 0))
     +:+ ("crtime:" +:+ pretty (getattr (crtime meta) 0) +:+ "."
        +:+ pretty (getattr (crtime_nano meta) 0))
     +:+ ("mtime:" +:+ pretty (getattr (mtime meta) 0) +:+ "."
        +:+ pretty (getattr (mtime_nano meta) 0))
     +:+ ("ctime:" +:+ pretty (getattr (ctime meta) 0) +:+ "."
        +:+ pretty (getattr (ctime_nano meta) 0))).

(** Lines 268 to 278: the path spec of a regular file. *)
Definition transfer_proto (fs : CacheFileSystem) (path name_str : string)
    (inode_addr : Z) : EventPathSpec :=
  {| type := if 0 <=? fs_store_nr fs then "VSS" else "TSK";
     vss_store_number :=
       if 0 <=? fs_store_nr fs then Some (fs_store_nr fs) else None;
     container_path := fs_path fs;
     image_offset := fs_offset fs;
     image_inode := inode_addr;
     file_path := GetUnicodeString (os_path_join path name_str) |}.

(** Lines 284 to 294: queue the path spec, through the hash list when the
    collector parses VSS. Reading [self._hashlist] before Collect has set it
    raises AttributeError. *)
Definition queue_file (self : SimpleImageCollector) (proto : EventPathSpec)
    (inode_addr : Z) (meta : TSK_FS_META) : M unit :=
  if _vss self then
    let hash_value := CalculateNTFSTimeHash meta in
    s ← get_state;
    match hashlist s with
    | None => raise AttributeError
    | Some hl =>
        if bool_decide (hash_value ∈ default [] (hl !! inode_addr)) then mret tt
        else
          put_state
            {| hashlist :=
                 Some (<[inode_addr := default [] (hl !! inode_addr) ++ [hash_value]]> hl);
               io_faults := io_faults s |};;
          Queue (ProtoString proto)
    end
  else Queue (ProtoString proto).

(** One turn of the loop [for f in directory], lines 237 to 294. The locals
    that live across turns are [name_str] (None while unbound) and
    [directories]. *)
Definition ParseImageDir_entry (self : SimpleImageCollector)
    (fs : CacheFileSystem) (path : string) (f : TSK_FS_FILE)
    (locals : option string * list (Z * string))
    : M (option string * list (Z * string)) :=
  let '(name_str, directories) := locals in
  match read_entry f name_str with
  | ReadContinue => mret (name_str, directories)
  | ReadAttributeError None => raise (UnboundLocalError "name_str")
  | ReadAttributeError (Some name_str') =>
      logging ERROR "[ParseImage] Problem reading file [%s], error: %s";;
      mret (Some name_str', directories)
  | ReadBound name_str' inode_addr f_type meta =>
      if bool_decide (name_str' ∈ ["$OrphanFiles"; "."; ".."]) then
        mret (Some name_str', directories)
      else if f_type =? TSK_FS_META_TYPE_DIR then
        mret (Some name_str',
              directories ++ [(inode_addr, os_path_join path name_str')])
      else if f_type =? TSK_FS_META_TYPE_REG then
        queue_file self (transfer_proto fs path name_str' inode_addr)
          inode_addr meta;;
        mret (Some name_str', directories)
      else mret (Some name_str', directories)
  end.

(** ParseImageDir, lines 212 to 297. [fuel] is the depth of recursion that is
    left: the call that would go beyond it raises RuntimeError, as the call
    beyond sys.getrecursionlimit() does. *)
Fixpoint ParseImageDir (fuel : nat) (self : SimpleImageCollector)
    (fs : CacheFileSystem) (cur_inode : Z) (path : string) (retry : bool)
    : M unit :=
  match fuel with
  | O => raise RuntimeError
  | S fuel' =>
      opened ← try_except (open_dir fs cur_inode) is_IOError;
      match opened with
      | inl _ =>
          logging ERROR "IOError while trying to open a directory: %s [%d]";;
          if retry then mret tt
          else
            logging INFO "Reopening directory due to an IOError: %s";;
            ParseImageDir fuel' self fs cur_inode path true
      | inr directory =>
          locals ← for_loop directory (ParseImageDir_entry self fs path) (None, []);
          for_each locals.2
            (λ d, ParseImageDir fuel' self fs d.1 d.2 false)
      end
  end.

(** [self._fscache.Open(image_path, offset[, store_nr])]. *)
Definition fscache_Open (self : SimpleImageCollector) (image_path : string)
    (offset : Z) (store_nr : option Z) : M CacheFileSystem :=
  emit (EvOpen image_path offset store_nr);;
  match _fscache self image_path offset store_nr with
  | Some fs => mret fs
  | None => raise UnableToOpenFilesystem
  end.

Definition GetVssStores (self : SimpleImageCollector) (offset : Z) : M (list Z) :=
  if negb (_vss self) then mret []
  else
    logging DEBUG "Searching for VSS";;
    emit (EvVssStoreCount (_image self) offset);;
    let vss_numbers := GetVssStoreCount (_image self) offset in
    match _vss_stores self with
    | Some (nr0 :: rest) =>
        mret (foldl
                (λ stores nr,
                   if (0 <? nr) && (nr <=? vss_numbers) then stores ++ [nr]
                   else stores)
                [] (nr0 :: rest))
    | _ => mret (range0 vss_numbers)
    end.

Definition CollectFromVss (fuel : nat) (self : SimpleImageCollector)
    (image_path : string) (store_nr : Z) (offset : Z) : M unit :=
  logging DEBUG "Collecting from VSS store %d";;
  opened ← try_except
    (fs ← fscache_Open self image_path offset (Some store_nr);
     ParseImageDir fuel self fs (fs_root_inum fs) "/" false)
    is_UnableToOpenFilesystem;
  match opened with
  | inl _ => logging ERROR "Unable to read filesystem: %s."
  | inr _ => mret tt
  end;;
  logging DEBUG "Collection from VSS store: %d COMPLETED.".

(** Reading the free name [vss_numbers]. *)
Definition load_vss_numbers : M Z :=
  match global_vss_numbers with
  | Some v => mret v
  | None => raise (NameError "vss_numbers")
  end.

Definition SimpleImageCollector_Collect (fuel : nat)
    (self : SimpleImageCollector) : M unit :=
  let offset := py_or (_offset_bytes self) (_offset self * SECTOR_SIZE) in
  logging DEBUG "Collecting from an image file [%s]";;
  (if _vss self then
     s ← get_state;
     put_state {| hashlist := Some ∅; io_faults := io_faults s |}
   else mret tt);;
  opened ← try_except
    (fs ← fscache_Open self (_image self) offset None;
     ParseImageDir fuel self fs (fs_root_inum fs) os_path_sep false)
    is_UnableToOpenFilesystem;
  match opened with
  | inl _ => logging ERROR "Unable to read image [no collection] - %s."
  | inr _ =>
      (if _vss self then logging INFO "Collecting from VSS." else mret tt);;
      stores ← GetVssStores self offset;
      for_each stores
        (λ store_nr,
           load_vss_numbers;;
           logging INFO "Collecting from VSS store number: %d/%d";;
           CollectFromVss fuel self (_image self) store_nr offset);;
      logging DEBUG "Simple Image Collector - Done."
  end.

Definition queue_pathspecs (collector : preprocess_collector)
    (file_filter : string) : M unit :=
  emit (EvGetPathSpecs collector file_filter);;
  for_each (GetPathSpecs collector file_filter)
    (λ pathspec_string, Queue (PathSpecString pathspec_string)).

Definition TargetedImageCollector_Collect (fuel : nat)
    (self : TargetedImageCollector) : M unit :=
  let offset :=
    py_or (_offset_bytes (super self)) (_offset (super self) * SECTOR_SIZE) in
  let pre_collector := TSKFileCollector (_image (super self)) offset in
  try_finally
    (queue_pathspecs pre_collector (_file_filter self);;
     if _vss (super self) then
       logging DEBUG "Searching for VSS";;
       stores ← GetVssStores (super self) offset;
       for_each stores
         (λ store_nr,
            load_vss_numbers;;
            logging INFO "Collecting from VSS store number: %d/%d";;
            queue_pathspecs
              (VSSFileCollector (_image (super self)) store_nr offset)
              (_file_filter self))
     else mret tt)
    (logging DEBUG "Targeted Image Collector - Done.").

Global Instance SimpleImageCollector_Collector : Collector SimpleImageCollector :=
  SimpleImageCollector_Collect.
Global Instance TargetedImageCollector_Collector : Collector TargetedImageCollector :=
  TargetedImageCollector_Collect.
End collector.

(** ** Relations a computation keeps between its start and its end *)

(** [R s s' t]: from state [s] the computation reached [s'] and left the
    trace [t]. A relation that holds of doing nothing and composes along
    sequencing passes through [bind], the loops and the exception forms. *)
Record hereditary (R : State → State → list event → Prop) : Prop := {
  hereditary_nil : ∀ s, R s s [];
  hereditary_app : ∀ s1 s2 s3 t1 t2,
    R s1 s2 t1 → R s2 s3 t2 → R s1 s3 (t1 ++ t2);
}.

Definition keeps {A} (R : State → State → list event → Prop) (m : M A) : Prop :=
  ∀ s o s' t, m s = (o, s', t) → R s s' t.

(** The table [hl'] holds every fingerprint of [hl]. *)
Definition hashlist_le (hl hl' : option (gmap Z (list string))) : Prop :=
  match hl, hl' with
  | None, None => True
  | Some m, Some m' =>
      ∀ inode h, h ∈ default [] (m !! inode) → h ∈ default [] (m' !! inode)
  | _, _ => False
  end.

(** The byte offsets handed to the cache, to the store count and to the
    preprocessing collectors. *)
Definition offsets_used (t : list event) : list Z :=
  omap (λ ev, match ev with
              | EvOpen _ offset _ => Some offset
              | EvVssStoreCount _ offset => Some offset
              | EvGetPathSpecs (TSKFileCollector _ offset) _ => Some offset
              | EvGetPathSpecs (VSSFileCollector _ _ offset) _ => Some offset
              | _ => None
              end) t.

(** The snapshot stores handed to the collection filter, in order. *)
Definition stores_filtered (t : list event) : list Z :=
  omap (λ ev, match ev with
              | EvGetPathSpecs (VSSFileCollector _ nr _) _ => Some nr
              | _ => None
              end) t.

(** The exceptions a computation may end in. *)
Definition raises_only {A} (Q : exn → Prop) (m : M A) : Prop :=
  ∀ s e, (m s).1.1 = Raise e → Q e.

(** ** Reading the entries *)

(** The entry [f] reads as a regular file [name_str] at inode [inode_addr]
    with metadata [meta], and its name is none of those the loop skips. *)
Definition regular_file (f : TSK_FS_FILE) (name_str : string) (inode_addr : Z)
    (meta : TSK_FS_META) : Prop :=
  read_entry f None = ReadBound name_str inode_addr TSK_FS_META_TYPE_REG meta ∧
  name_str ∉ ["$OrphanFiles"; "."; ".."].

(** The four timestamp pairs of CalculateNTFSTimeHash, in its order: access,
    creation, modification, change; a missing field counts as 0. *)
Definition timestamps (meta : TSK_FS_META) : list (Z * Z) :=
  [(getattr (atime meta) 0, getattr (atime_nano meta) 0);
   (getattr (crtime meta) 0, getattr (crtime_nano meta) 0);
   (getattr (mtime meta) 0, getattr (mtime_nano meta) 0);
   (getattr (ctime meta) 0, getattr (ctime_nano meta) 0)].

(** The text that is hashed: for each pair its label, a colon, the seconds in
    decimal, a dot and the fraction in decimal, all concatenated. *)
Definition fingerprint_text (pairs : list (string * (Z * Z))) : string :=
  foldr (λ p text, (p.1 +:+ ":" +:+ pretty p.2.1 +:+ "." +:+ pretty p.2.2) +:+ text)
    "" pairs.

(** ** A sample image *)

(** A regular file or directory entry whose four timestamps are [ts]. *)
Definition sample_meta (inode f_type ts : Z) : TSK_FS_META :=
  {| meta_addr := Attr inode; meta_type := Attr f_type;
     atime := Some ts; atime_nano := None;
     crtime := Some ts; crtime_nano := Some 0;
     mtime := Some ts; mtime_nano := Some 0;
     ctime := Some ts; ctime_nano := Some 0 |}.

Definition sample_entry (name : string) (inode f_type ts : Z) : TSK_FS_FILE :=
  {| info_name := Attr (Some {| name_name := Attr name; name_flags := Attr 1 |});
     info_meta := Attr (Some (sample_meta inode f_type ts)) |}.

(** A volume with /a.txt (inode 5), its hard link /h, and /b/c.txt (inode 7),
    whose timestamps differ from store to store. *)
Definition sample_volume (store_nr : Z) : CacheFileSystem :=
  {| fs_dirs :=
       {[ 2 := [sample_entry "." 2 TSK_FS_META_TYPE_DIR 0;
                sample_entry "a.txt" 5 TSK_FS_META_TYPE_REG 10;
                sample_entry "b" 6 TSK_FS_META_TYPE_DIR 0;
                sample_entry "h" 5 TSK_FS_META_TYPE_REG 10];
          6 := [sample_entry "c.txt" 7 TSK_FS_META_TYPE_REG (20 + store_nr)] ]};
     fs_root_inum := 2;
     fs_store_nr := store_nr;
     fs_path := "image.dd";
     fs_offset := 0 |}.

(** A cache whose Open gives store number -1 to a volume opened without
    one. *)
Definition sample_collector (parse_vss : bool) (vss_stores : option (list Z))
    : SimpleImageCollector :=
  {| _image := "image.dd"; _offset := 0; _offset_bytes := 0;
     _vss := parse_vss; _vss_stores := vss_stores;
     _fscache := λ _ _ store_nr, Some (sample_volume (default (-1) store_nr)) |}.

(** The module as written, with a stand-in digest, three stores on every
    image, and a filter that yields one path spec. *)
Definition sample_runtime : Runtime :=
  collector_py (λ s, s) (λ _ _, 3) (λ _ _, ["pathspec"]).

Definition fresh_state : State := {| hashlist := None; io_faults := ∅ |}.

(** The state in which Collect, with VSS parsing on, starts its walks. *)
Definition collecting_state : State := {| hashlist := Some ∅; io_faults := ∅ |}.

(** Opening the directory raises IOError in state [s]. *)
Definition open_fails (fs : CacheFileSystem) (inode : Z) (s : State) : Prop :=
  (open_dir fs inode s).1.1 = Raise IOError.

(** An entry whose [f.info.meta] cannot be read. *)
Definition unreadable_entry (name : string) : TSK_FS_FILE :=
  {| info_name := Attr (Some {| name_name := Attr name; name_flags := Attr 1 |});
     info_meta := NoAttr |}.

(** A volume whose root directory lists an unreadable entry before /a.txt. *)
Definition damaged_volume : CacheFileSystem :=
  {| fs_dirs :=
       {[ 2 := [unreadable_entry "lost";
                sample_entry "a.txt" 5 TSK_FS_META_TYPE_REG 10] ]};
     fs_root_inum := 2;
     fs_store_nr := -1;
     fs_path := "image.dd";
     fs_offset := 0 |}.

Definition damaged_collector : SimpleImageCollector :=
  {| _image := "image.dd"; _offset := 0; _offset_bytes := 0;
     _vss := false; _vss_stores := None;
     _fscache := λ _ _ _, Some damaged_volume |}.

(** The same volume, read by a collector that parses VSS. *)
Definition damaged_vss_collector : SimpleImageCollector :=
  {| _image := "image.dd"; _offset := 0; _offset_bytes := 0;
     _vss := true; _vss_stores := None;
     _fscache := λ _ _ _, Some damaged_volume |}.

(** The next attempt to open directory 6 of the main volume fails, the one
    after it does not. *)
Definition faulty_state : State :=
  {| hashlist := None; io_faults := {[ (-1, 6) := 1%nat ]} |}.

(** A collector whose cache opens no volume. *)
Definition unreadable_collector (parse_vss : bool) : SimpleImageCollector :=
  {| _image := "image.dd"; _offset := 63; _offset_bytes := 0;
     _vss := parse_vss; _vss_stores := None;
     _fscache := λ _ _ _, None |}.

(** A volume whose root directory lists itself as a subdirectory, and a
    collector that reads it. *)
Definition cyclic_volume : CacheFileSystem :=
  {| fs_dirs := {[ 2 := [sample_entry "loop" 2 TSK_FS_META_TYPE_DIR 0] ]};
     fs_root_inum := 2;
     fs_store_nr := -1;
     fs_path := "image.dd";
     fs_offset := 0 |}.

Definition cyclic_collector : SimpleImageCollector :=
  {| _image := "image.dd"; _offset := 0; _offset_bytes := 0;
     _vss := false; _vss_stores := None;
     _fscache := λ _ _ _, Some cyclic_volume |}.

(** ** Statements that the code does not meet *)

(** Run closes the queue exactly once, whatever Collect does. *)
Definition closes_queue_once {T} `{Collector T} (fuel : nat) (self : T)
    (s : State) : Prop :=
  closes (Run fuel self s).2 = [tt].

(** With an explicit list of store numbers, GetVssStores selects exactly the
    requested numbers that lie in [1, N]. *)
Definition selects_requested_stores `{Runtime} (self : SimpleImageCollector)
    (offset : Z) (s : State) : Prop :=
  ∀ requested, _vss self = true → _vss_stores self = Some requested →
    ∃ stores, (GetVssStores self offset s).1.1 = Return stores ∧
      ∀ nr, nr ∈ stores ↔
        nr ∈ requested ∧ 1 ≤ nr ≤ GetVssStoreCount (_image self) offset.

(** The same collector with VSS parsing off. *)
Definition without_vss (self : SimpleImageCollector) : SimpleImageCollector :=
  {| _image := _image self; _offset := _offset self;
     _offset_bytes := _offset_bytes self; _vss := false;
     _vss_stores := _vss_stores self; _fscache := _fscache self |}.

(** In a run that parses VSS, the walk of the main volume goes past the hash
    list: it leaves the list as it was and queues what the walk queues with
    VSS parsing off. *)
Definition main_walk_bypasses_hashlist `{Runtime} (fuel : nat)
    (self : SimpleImageCollector) (fs : CacheFileSystem) (s : State) : Prop :=
  _vss self = true →
  hashlist (ParseImageDir fuel self fs (fs_root_inum fs) os_path_sep false s).1.2
    = hashlist s ∧
  queued (ParseImageDir fuel self fs (fs_root_inum fs) os_path_sep false s).2
    = queued (ParseImageDir fuel (without_vss self) fs (fs_root_inum fs)
                os_path_sep false s).2.

(** A collector that parses VSS and for which GetVssStores returns at least
    one store raises NameError in Collect, so that Run ends without closing
    the queue. *)
Definition store_loop_always_raises `{Runtime} (fuel : nat)
    (self : SimpleImageCollector) (s : State) : Prop :=
  _vss self = true →
  ∀ nr stores,
    (GetVssStores self
       (py_or (_offset_bytes self) (_offset self * SECTOR_SIZE)) s).1.1
    = Return (nr :: stores) →
    (SimpleImageCollector_Collect fuel self s).1.1
    = Raise (NameError "vss_numbers") ∧
    closes (Run fuel self s).2 = [].

(** ** The collectors of a mounted file system, and the with statement *)

(** What SimpleFileCollector asks of the operating system: os.path.isfile,
    os.path.isdir and os.path.islink, and os.walk as the list of the
    (root, dirs, files) triples it yields. *)
Class OperatingSystem := {
  os_path_isfile : string → bool;
  os_path_isdir : string → bool;
  os_path_islink : string → bool;
  os_walk : string → list (string * list string * list string);
}.

Record SimpleFileCollector := {
  _dir : string;
}.

(** ProcessFile sets [type] and [file_path]; the other fields of the path spec
    stay unset, here the empty string, 0 and None. *)
Definition ProcessFile (filename : string) : M unit :=
  Queue (ProtoString
    {| type := "OS"; vss_store_number := None; container_path := "";
       image_offset := 0; image_inode := 0;
       file_path := GetUnicodeString filename |}).

(** Lines 104 to 111: one file name of the walk. *)
Definition SimpleFileCollector_file `{OperatingSystem} (root filename : string)
    : M unit :=
  caught ← try_except
    (let path := os_path_join root filename in
     if os_path_islink path then mret tt
     else if os_path_isfile path then ProcessFile path
     else mret tt)
    is_IOError;
  match caught with
  | inl _ => logging WARNING "Unable to further process %s:%s"
  | inr _ => mret tt
  end.

Definition SimpleFileCollector_Collect `{OperatingSystem}
    (self : SimpleFileCollector) : M unit :=
  if os_path_isfile (_dir self) then ProcessFile (_dir self)
  else if negb (os_path_isdir (_dir self)) then
    logging ERROR "Unable to collect, [{}] is neither a file nor a directory."
  else
    for_each (os_walk (_dir self))
      (λ entry, for_each entry.2 (SimpleFileCollector_file entry.1.1)).

Global Instance SimpleFileCollector_Collector `{OperatingSystem} :
  Collector SimpleFileCollector := λ _, SimpleFileCollector_Collect.

(** A TargetedFileSystemCollector is a SimpleFileCollector on the mount point,
    with a filter file. [file_system_pathspecs] is what
    CollectionFilter(preprocess.FileSystemCollector(pre_obj, mount_point),
    file_filter).GetPathSpecs() yields. *)
Record TargetedFileSystemCollector := {
  mount_point : SimpleFileCollector;
  targeted_file_filter : string;
}.

Class FileSystemFilter :=
  file_system_pathspecs : string → string → list string.

Definition TargetedFileSystemCollector_Collect `{FileSystemFilter}
    (self : TargetedFileSystemCollector) : M unit :=
  for_each
    (file_system_pathspecs (_dir (mount_point self)) (targeted_file_filter self))
    (λ pathspec_string, Queue (PathSpecString pathspec_string)).

Global Instance TargetedFileSystemCollector_Collector `{FileSystemFilter} :
  Collector TargetedFileSystemCollector :=
  λ _, TargetedFileSystemCollector_Collect.

(** [with collector: body]. __enter__ hands the collector back; __exit__
    closes the queue and returns None, so that an exception of the body goes
    on once the queue is closed. *)
Definition with_collector {A} (body : M A) : M A := try_finally body Close.

(** The file paths of the path specs queued by a walk. *)
Definition queued_paths (t : list event) : list string :=
  omap (λ item, match item with
                | ProtoString p => Some (file_path p)
                | PathSpecString _ => None
                end) (queued t).

(** The paths SimpleFileCollector is to queue for a directory: every file name
    of every triple of the walk, joined to its root, that is no link and is a
    file. *)
Definition files_to_collect `{OperatingSystem} (directory : string) : list string :=
  filter (λ path, os_path_islink path = false ∧ os_path_isfile path = true)
    (mjoin ((λ entry, os_path_join entry.1.1 <$> entry.2) <$> os_walk directory)).

(** ** Where the queued path specs of a walk come from *)

(** [f] is an entry of some directory of the volume. *)
Definition listed (fs : CacheFileSystem) (f : TSK_FS_FILE) : Prop :=
  ∃ inode directory, fs_dirs fs !! inode = Some directory ∧ f ∈ directory.

(** [item] is the path spec of a regular file listed in the volume. *)
Definition queued_from (fs : CacheFileSystem) (item : queue_item) : Prop :=
  ∃ f name_str inode_addr meta path,
    listed fs f ∧ regular_file f name_str inode_addr meta ∧
    item = ProtoString (transfer_proto fs path name_str inode_addr).

(** ** What the entries loop makes of a listing *)

(** The directories of a listing the walk is to descend into: the entries that
    read to the end with the type of directories and a name other than
    $OrphanFiles, . and .., each with its inode and its path. *)
Definition subdirectories (path : string) (directory : list TSK_FS_FILE)
    : list (Z * string) :=
  omap (λ f, match read_entry f None with
             | ReadBound name_str inode_addr f_type _ =>
                 if bool_decide (name_str ∈ ["$OrphanFiles"; "."; ".."]) then None
                 else if f_type =? TSK_FS_META_TYPE_DIR
                      then Some (inode_addr, os_path_join path name_str)
                      else None
             | _ => None
             end) directory.

(** The path specs of the regular files of a listing. *)
Definition regular_files (fs : CacheFileSystem) (path : string)
    (directory : list TSK_FS_FILE) : list queue_item :=
  omap (λ f, match read_entry f None with
             | ReadBound name_str inode_addr f_type _ =>
                 if bool_decide (name_str ∈ ["$OrphanFiles"; "."; ".."]) then None
                 else if f_type =? TSK_FS_META_TYPE_DIR then None
                 else if f_type =? TSK_FS_META_TYPE_REG
                      then Some (ProtoString
                                   (transfer_proto fs path name_str inode_addr))
                      else None
             | _ => None
             end) directory.

(** Every directory of the volume lists only subdirectories of a lower rank:
    the directories of the volume form no cycle. *)
Definition ranked (fs : CacheFileSystem) (rank : Z → nat) : Prop :=
  ∀ inode directory path d,
    fs_dirs fs !! inode = Some directory →
    d ∈ subdirectories path directory → (rank d.1 < rank inode)%nat.


(** From a state in which [I] holds the computation ends in a state in which
    [I] holds, and raises only exceptions of [Q]. *)
Definition guards {A} (I : State → Prop) (Q : exn → Prop) (m : M A) : Prop :=
  ∀ s, I s → I (m s).1.2 ∧ ∀ e, (m s).1.1 = Raise e → Q e.

(** The hash list is there when the collector needs it. *)
Definition hashlist_ready (self : SimpleImageCollector) (s : State) : Prop :=
  _vss self = true → is_Some (hashlist s).

(** No inode of the hash list has the same fingerprint twice. *)
Definition hashlist_NoDup (s : State) : Prop :=
  ∀ hl inode fingerprints,
    hashlist s = Some hl → hl !! inode = Some fingerprints → NoDup fingerprints.

(** ** The text of a fingerprint *)

(** The characters of a number in decimal: the digits and the minus sign. *)
Definition numeral_char (c : ascii) : bool :=
  bool_decide (c ∈ ["0"; "1"; "2"; "3"; "4"; "5"; "6"; "7"; "8"; "9"; "-"]%char).

Fixpoint numeral (str : string) : Prop :=
  match str with
  | EmptyString => True
  | String c rest => numeral_char c = true ∧ numeral rest
  end.

(** ** More of the sample image *)


(** The height of the directories of the sample volume. *)
Definition sample_rank (inode : Z) : nat := if bool_decide (inode = 2) then 1 else 0.

(** The listing of the root directory of the sample volume. *)
Definition sample_listing : list TSK_FS_FILE :=
  [sample_entry "." 2 TSK_FS_META_TYPE_DIR 0;
   sample_entry "a.txt" 5 TSK_FS_META_TYPE_REG 10;
   sample_entry "b" 6 TSK_FS_META_TYPE_DIR 0;
   sample_entry "h" 5 TSK_FS_META_TYPE_REG 10].

(** ** Computations that come to an end *)

(** The computation returns or raises, and what it raises is not [bad]. *)
Definition avoids {A} (bad : exn → Prop) (m : M A) : Prop :=
  ∀ s, (m s).1.1 ≠ Diverge ∧ ∀ e, (m s).1.1 = Raise e → ¬ bad e.

(** The depth that is enough for the walk of a directory of the given rank:
    two calls for each level, the second for the second attempt to open the
    directory. *)
Definition deep_enough (rank : Z → nat) (fuel : nat) (cur_inode : Z)
    (retry : bool) : Prop :=
  (2 * rank cur_inode + (if retry then 1 else 2) ≤ fuel)%nat.

(** * Properties *)

Ltac unfold_M :=
  unfold mbind, M_bind, bind, mret, M_ret, ret, raise, emit, logging,
    Queue, Close, get_state, put_state in *.

Section keeping.
Context (R : State → State → list event → Prop) (HR : hereditary R).

Lemma keeps_ret {A} (a : A) : keeps R (mret a).
Proof. intros s o s' t [= <- <- <-]. apply HR. Qed.

Lemma keeps_raise {A} e : keeps R (@raise A e).
Proof. intros s o s' t [= <- <- <-]. apply HR. Qed.

Lemma keeps_get_state : keeps R get_state.
Proof. intros s o s' t [= <- <- <-]. apply HR. Qed.

Lemma keeps_bind {A B} (m : M A) (k : A → M B) :
  keeps R m → (∀ a, keeps R (k a)) → keeps R (m ≫= k).
Proof.
  intros Hm Hk s o s' t. unfold keeps in *. unfold_M.
  destruct (m s) as [[[a|e|] s1] t1] eqn:Em; try (intros [= <- <- <-]; eauto).
  destruct (k a s1) as [[o2 s2] t2] eqn:Ek. intros [= <- <- <-].
  eapply hereditary_app; eauto.
Qed.

Lemma keeps_try_except {A} (m : M A) catches :
  keeps R m → keeps R (try_except m catches).
Proof.
  intros Hm s o s' t. unfold keeps in *. unfold try_except.
  destruct (m s) as [[[a|e|] s1] t1] eqn:Em; try (intros [= <- <- <-]; eauto).
  destruct (catches e); intros [= <- <- <-]; eauto.
Qed.

Lemma keeps_try_finally {A} (m : M A) fin :
  keeps R m → keeps R fin → keeps R (try_finally m fin).
Proof.
  intros Hm Hf s o s' t. unfold keeps in *. unfold try_finally.
  destruct (m s) as [[[a|e|] s1] t1] eqn:Em; try (intros [= <- <- <-]; eauto);
    destruct (fin s1) as [[[[]|e'|] s2] t2] eqn:Ef; intros [= <- <- <-];
    eapply hereditary_app; eauto.
Qed.

Lemma keeps_for_each {A} (l : list A) body :
  (∀ x, keeps R (body x)) → keeps R (for_each l body).
Proof.
  intros Hb. induction l as [|x l IH]; simpl.
  - apply (keeps_ret tt).
  - apply keeps_bind; auto.
Qed.

Lemma keeps_for_loop {A L} (l : list A) (body : A → L → M L) locals :
  (∀ x loc, keeps R (body x loc)) → keeps R (for_loop l body locals).
Proof.
  intros Hb. revert locals. induction l as [|x l IH]; intros locals; simpl.
  - apply keeps_ret.
  - apply keeps_bind; auto.
Qed.

(** The walk keeps what opening a directory, logging and queueing a file
    keep. *)
Section walk.
Context `{Runtime} (self : SimpleImageCollector).
Hypothesis R_log : ∀ level fmt, keeps R (logging level fmt).
Hypothesis R_open_dir : ∀ fs inode, keeps R (open_dir fs inode).
Hypothesis R_queue_file : ∀ proto inode meta,
  keeps R (queue_file self proto inode meta).

Lemma keeps_ParseImageDir_entry fs path f locals :
  keeps R (ParseImageDir_entry self fs path f locals).
Proof.
  destruct locals as [name_str directories]. unfold ParseImageDir_entry.
  destruct (read_entry f name_str) as [|[nm|]|nm inode ty meta].
  - apply keeps_ret.
  - apply keeps_bind; [apply R_log | intros; apply keeps_ret].
  - apply keeps_raise.
  - repeat case_match; try apply keeps_ret.
    apply keeps_bind; [apply R_queue_file | intros; apply keeps_ret].
Qed.

Lemma keeps_ParseImageDir fuel fs cur_inode path retry :
  keeps R (ParseImageDir fuel self fs cur_inode path retry).
Proof.
  revert cur_inode path retry.
  induction fuel as [|fuel IH]; intros cur_inode path retry; simpl.
  - apply keeps_raise.
  - apply keeps_bind; [apply keeps_try_except, R_open_dir|].
    intros [e|directory].
    + apply keeps_bind; [apply R_log|]. intros _.
      destruct retry; [apply keeps_ret|].
      apply keeps_bind; [apply R_log | auto].
    + apply keeps_bind.
      * apply keeps_for_loop. intros. apply keeps_ParseImageDir_entry.
      * intros locals. apply keeps_for_each. auto.
Qed.
End walk.
End keeping.

(** A property of the trace alone. *)
Definition on_trace (P : list event → Prop) : State → State → list event → Prop :=
  λ _ _ t, P t.

Lemma on_trace_hereditary (P : list event → Prop) :
  P [] → (∀ t1 t2, P t1 → P t2 → P (t1 ++ t2)) → hereditary (on_trace P).
Proof. intros H0 Happ. split; unfold on_trace; eauto. Qed.

Lemma keeps_emit R ev : (∀ s, R s s [ev]) → keeps R (emit ev).
Proof. intros HR s o s' t [= <- <- <-]. apply HR. Qed.

Lemma keeps_on_trace_open_dir P fs inode :
  P [EvOpenDir (fs_store_nr fs) inode] → keeps (on_trace P) (open_dir fs inode).
Proof.
  intros HP s o s' t. unfold open_dir, on_trace.
  repeat case_match; intros [= <- <- <-]; exact HP.
Qed.

Lemma keeps_on_trace_queue_file `{Runtime} P self proto inode meta :
  P [] → P [EvQueue (ProtoString proto)] →
  keeps (on_trace P) (queue_file self proto inode meta).
Proof.
  intros H0 HP s o s' t. unfold queue_file, on_trace. unfold_M.
  destruct (_vss self); simpl; [|by intros [= <- <- <-]].
  destruct (hashlist s); [|by intros [= <- <- <-]].
  case_bool_decide; simpl; by intros [= <- <- <-].
Qed.

(** The walk opens no volume, counts no stores and does not close the
    queue. *)
Definition walk_only (t : list event) : Prop :=
  stores_opened t = [] ∧ closes t = [] ∧ offsets_used t = [].

Lemma walk_only_hereditary : hereditary (on_trace walk_only).
Proof.
  apply on_trace_hereditary; [done|].
  unfold walk_only, stores_opened, closes, offsets_used.
  intros t1 t2 (H1&H2&H3) (H4&H5&H6).
  by rewrite !omap_app, H1, H2, H3, H4, H5, H6.
Qed.

Lemma ParseImageDir_walk_only `{Runtime} fuel self fs cur_inode path retry :
  keeps (on_trace walk_only) (ParseImageDir fuel self fs cur_inode path retry).
Proof.
  apply keeps_ParseImageDir.
  - apply walk_only_hereditary.
  - intros. by apply keeps_emit.
  - intros. by apply keeps_on_trace_open_dir.
  - intros. by apply keeps_on_trace_queue_file.
Qed.

(** Running a sequence when the result of its first part is known. *)
Lemma run_bind_Return {A B} (m : M A) (k : A → M B) s a s1 t1 :
  m s = (Return a, s1, t1) →
  (m ≫= k) s = ((k a s1).1.1, (k a s1).1.2, t1 ++ (k a s1).2).
Proof. intros Hm. unfold_M. rewrite Hm. by destruct (k a s1) as [[??]?]. Qed.

Lemma run_bind_Raise {A B} (m : M A) (k : A → M B) s e s1 t1 :
  m s = (Raise e, s1, t1) → (m ≫= k) s = (Raise e, s1, t1).
Proof. intros Hm. unfold_M. by rewrite Hm. Qed.

Lemma run_bind_Diverge {A B} (m : M A) (k : A → M B) s s1 t1 :
  m s = (Diverge, s1, t1) → (m ≫= k) s = (Diverge, s1, t1).
Proof. intros Hm. unfold_M. by rewrite Hm. Qed.

(** What the Collect methods keep. *)
Section Collect_keeps.
Context `{Runtime} (R : State → State → list event → Prop).
Context (HR : hereditary R) (self : SimpleImageCollector).
Hypothesis R_log : ∀ level fmt, keeps R (logging level fmt).
Hypothesis R_open_dir : ∀ fs inode, keeps R (open_dir fs inode).
Hypothesis R_queue_file : ∀ proto inode meta,
  keeps R (queue_file self proto inode meta).
Hypothesis R_Open : ∀ store_nr s,
  R s s [EvOpen (_image self)
           (py_or (_offset_bytes self) (_offset self * SECTOR_SIZE)) store_nr].
Hypothesis R_count : ∀ s,
  R s s [EvVssStoreCount (_image self)
           (py_or (_offset_bytes self) (_offset self * SECTOR_SIZE))].
Hypothesis R_reset : ∀ s,
  R s {| hashlist := Some ∅; io_faults := io_faults s |} [].

Lemma keeps_fscache_Open store_nr :
  keeps R (fscache_Open self (_image self)
             (py_or (_offset_bytes self) (_offset self * SECTOR_SIZE)) store_nr).
Proof.
  apply keeps_bind; [done|by apply keeps_emit|]. intros _.
  destruct (_fscache _ _ _ _); [by apply keeps_ret|by apply keeps_raise].
Qed.

Lemma keeps_GetVssStores :
  keeps R (GetVssStores self
             (py_or (_offset_bytes self) (_offset self * SECTOR_SIZE))).
Proof.
  unfold GetVssStores. destruct (_vss self); simpl; [|by apply keeps_ret].
  apply keeps_bind; [done|apply R_log|]. intros _.
  apply keeps_bind; [done|by apply keeps_emit|]. intros _.
  destruct (_vss_stores self) as [[|??]|]; by apply keeps_ret.
Qed.

Lemma keeps_load_vss_numbers : keeps R load_vss_numbers.
Proof.
  unfold load_vss_numbers.
  destruct global_vss_numbers; [by apply keeps_ret|by apply keeps_raise].
Qed.

Lemma keeps_CollectFromVss fuel store_nr :
  keeps R (CollectFromVss fuel self (_image self) store_nr
             (py_or (_offset_bytes self) (_offset self * SECTOR_SIZE))).
Proof.
  unfold CollectFromVss.
  apply keeps_bind; [done|apply R_log|]. intros _.
  apply keeps_bind; [done| |].
  - apply keeps_try_except.
    apply keeps_bind; [done|apply keeps_fscache_Open|].
    intros fs. by apply keeps_ParseImageDir.
  - intros opened. apply keeps_bind; [done| |intros; apply R_log].
    destruct opened; [apply R_log|by apply keeps_ret].
Qed.

Lemma keeps_SimpleImageCollector_Collect fuel :
  keeps R (SimpleImageCollector_Collect fuel self).
Proof.
  unfold SimpleImageCollector_Collect.
  apply keeps_bind; [done|apply R_log|]. intros _.
  apply keeps_bind; [done| |].
  { destruct (_vss self); [|by apply keeps_ret].
    intros s o s' t [= <- <- <-]. apply R_reset. }
  intros _. apply keeps_bind; [done| |].
  { apply keeps_try_except.
    apply keeps_bind; [done|apply keeps_fscache_Open|].
    intros fs. by apply keeps_ParseImageDir. }
  intros [?|?]; [apply R_log|].
  apply keeps_bind; [done| |].
  { destruct (_vss self); [apply R_log|by apply keeps_ret]. }
  intros _. apply keeps_bind; [done|apply keeps_GetVssStores|].
  intros stores. apply keeps_bind; [done| |intros; apply R_log].
  apply keeps_for_each; [done|]. intros store_nr.
  apply keeps_bind; [done|apply keeps_load_vss_numbers|]. intros _.
  apply keeps_bind; [done|apply R_log|]. intros _.
  apply keeps_CollectFromVss.
Qed.

Context (file_filter : string).
Hypothesis R_specs : ∀ c s,
  (c = TSKFileCollector (_image self)
         (py_or (_offset_bytes self) (_offset self * SECTOR_SIZE)) ∨
   ∃ store_nr,
     c = VSSFileCollector (_image self) store_nr
           (py_or (_offset_bytes self) (_offset self * SECTOR_SIZE))) →
  R s s [EvGetPathSpecs c file_filter].
Hypothesis R_queue_string : ∀ str s, R s s [EvQueue (PathSpecString str)].

Lemma keeps_queue_pathspecs c :
  (c = TSKFileCollector (_image self)
         (py_or (_offset_bytes self) (_offset self * SECTOR_SIZE)) ∨
   ∃ store_nr,
     c = VSSFileCollector (_image self) store_nr
           (py_or (_offset_bytes self) (_offset self * SECTOR_SIZE))) →
  keeps R (queue_pathspecs c file_filter).
Proof.
  intros Hc. apply keeps_bind; [done|by apply keeps_emit; auto|]. intros _.
  apply keeps_for_each; [done|]. intros str. by apply keeps_emit.
Qed.

Lemma keeps_TargetedImageCollector_Collect fuel :
  keeps R (TargetedImageCollector_Collect fuel
             {| super := self; _file_filter := file_filter |}).
Proof.
  unfold TargetedImageCollector_Collect; simpl.
  apply keeps_try_finally; [done| |apply R_log].
  apply keeps_bind; [done|apply keeps_queue_pathspecs; auto|]. intros _.
  destruct (_vss self) eqn:Hvss; [|by apply keeps_ret].
  apply keeps_bind; [done|apply R_log|]. intros _.
  apply keeps_bind; [done|apply keeps_GetVssStores|].
  intros stores. apply keeps_for_each; [done|]. intros store_nr.
  apply keeps_bind; [done|apply keeps_load_vss_numbers|]. intros _.
  apply keeps_bind; [done|apply R_log|]. intros _.
  apply keeps_queue_pathspecs; eauto.
Qed.
End Collect_keeps.

(** ** The Collector interface: Run and Close *)

Lemma SimpleImageCollector_Collect_no_Close `{Runtime} fuel self s :
  closes (SimpleImageCollector_Collect fuel self s).2 = [].
Proof.
  destruct (SimpleImageCollector_Collect fuel self s) as [[o s'] t] eqn:E.
  revert E. apply (keeps_SimpleImageCollector_Collect (on_trace (λ t, closes t = [])));
    try done.
  - apply on_trace_hereditary; [done|]. unfold closes. intros t1 t2 H1 H2.
    by rewrite omap_app, H1, H2.
  - intros. by apply keeps_emit.
  - intros. by apply keeps_on_trace_open_dir.
  - intros. by apply keeps_on_trace_queue_file.
Qed.

Lemma TargetedImageCollector_Collect_no_Close `{Runtime} fuel self s :
  closes (TargetedImageCollector_Collect fuel self s).2 = [].
Proof.
  destruct self as [self file_filter].
  destruct (TargetedImageCollector_Collect _ _ s) as [[o s'] t] eqn:E.
  revert E.
  apply (keeps_TargetedImageCollector_Collect (on_trace (λ t, closes t = [])));
    try done.
  - apply on_trace_hereditary; [done|]. unfold closes. intros t1 t2 H1 H2.
    by rewrite omap_app, H1, H2.
  - intros. by apply keeps_emit.
Qed.

(** C1, as the code has it: Run calls Collect and, when Collect returns, closes
    the queue, so that the queue of an image collector is closed exactly once;
    when Collect raises, the exception leaves Run and Run does not close the
    queue. *)
Theorem Run_closes_queue_when_Collect_returns :
  (∀ T (C : Collector T) fuel (self : T) s,
     match Collect fuel self s with
     | (Return _, s1, t1) => Run fuel self s = (Return tt, s1, t1 ++ [EvClose])
     | (Raise e, s1, t1) => Run fuel self s = (Raise e, s1, t1)
     | (Diverge, s1, t1) => Run fuel self s = (Diverge, s1, t1)
     end) ∧
  (∀ (rt : Runtime) fuel (self : SimpleImageCollector) s,
     closes (Run fuel self s).2 =
       match (Collect fuel self s).1.1 with Return _ => [tt] | _ => [] end) ∧
  (∀ (rt : Runtime) fuel (self : TargetedImageCollector) s,
     closes (Run fuel self s).2 =
       match (Collect fuel self s).1.1 with Return _ => [tt] | _ => [] end).
Proof.
  assert (Hrun : ∀ T (C : Collector T) fuel (self : T) s,
     match Collect fuel self s with
     | (Return _, s1, t1) => Run fuel self s = (Return tt, s1, t1 ++ [EvClose])
     | (Raise e, s1, t1) => Run fuel self s = (Raise e, s1, t1)
     | (Diverge, s1, t1) => Run fuel self s = (Diverge, s1, t1)
     end).
  { intros T C fuel self s. unfold Run. unfold_M.
    by destruct (Collect fuel self s) as [[[[]|e|] s1] t1]. }
  split; [exact Hrun|]. split.
  - intros rt fuel self s. specialize (Hrun _ _ fuel self s).
    pose proof (SimpleImageCollector_Collect_no_Close fuel self s) as Hc.
    unfold Collect, SimpleImageCollector_Collector in *.
    destruct (SimpleImageCollector_Collect fuel self s) as [[[[]|e|] s1] t1];
      rewrite Hrun; simpl in *; unfold closes in *; by rewrite ?omap_app, Hc.
  - intros rt fuel self s. specialize (Hrun _ _ fuel self s).
    pose proof (TargetedImageCollector_Collect_no_Close fuel self s) as Hc.
    unfold Collect, TargetedImageCollector_Collector in *.
    destruct (TargetedImageCollector_Collect fuel self s) as [[[[]|e|] s1] t1];
      rewrite Hrun; simpl in *; unfold closes in *; by rewrite ?omap_app, Hc.
Qed.

(** C1 fails where Collect raises: the sample collector with VSS parsing on
    stops with a NameError, and its queue is never closed. *)
Lemma Run_leaves_queue_open_when_Collect_raises :
  (Run (H := @SimpleImageCollector_Collector sample_runtime) 5
     (sample_collector true None) fresh_state).1.1
    = Raise (NameError "vss_numbers") ∧
  ¬ closes_queue_once (H := @SimpleImageCollector_Collector sample_runtime) 5
      (sample_collector true None) fresh_state.
Proof. split; [by vm_compute|]. unfold closes_queue_once. by vm_compute. Qed.

(** ** GetVssStores *)

Lemma GetVssStores_loop (N : Z) (l acc : list Z) :
  foldl (λ stores nr, if (0 <? nr) && (nr <=? N) then stores ++ [nr] else stores)
    acc l
  = acc ++ filter (λ nr, 1 ≤ nr ≤ N) l.
Proof.
  revert acc. induction l as [|nr l IH]; intros acc; simpl.
  - by rewrite app_nil_r.
  - rewrite IH. destruct (0 <? nr) eqn:H0; destruct (nr <=? N) eqn:H1; simpl.
    + rewrite filter_cons_True by lia. by rewrite <- app_assoc.
    + rewrite filter_cons_False by lia. done.
    + rewrite filter_cons_False by lia. done.
    + rewrite filter_cons_False by lia. done.
Qed.

(** C5, as the code has it. For a volume with N stores GetVssStores selects:
    with a non-empty explicit list, the requested numbers that lie in [1, N],
    in the order of the list; with no list or an empty one, every store of
    [0, N) in ascending order; with VSS parsing off, none. It always returns
    and leaves the state as it was. *)
Theorem GetVssStores_selection `{Runtime} (self : SimpleImageCollector)
    (offset : Z) (s : State) :
  ∃ stores t, GetVssStores self offset s = (Return stores, s, t) ∧
    match _vss self, _vss_stores self with
    | false, _ => stores = []
    | true, Some (nr0 :: rest) =>
        stores = filter (λ nr, 1 ≤ nr ≤ GetVssStoreCount (_image self) offset)
                   (nr0 :: rest)
    | true, _ =>
        stores = seqZ 0 (GetVssStoreCount (_image self) offset) ∧
        ∀ nr, nr ∈ stores ↔ 0 ≤ nr < GetVssStoreCount (_image self) offset
    end.
Proof.
  unfold GetVssStores. destruct (_vss self); cbn [negb]; [|by eexists _, _].
  unfold_M.
  destruct (_vss_stores self) as [[|nr0 rest]|]; eexists _, _;
    (split; [reflexivity|]).
  - split; [done|]. intros nr. unfold range0. rewrite elem_of_seqZ. lia.
  - by rewrite GetVssStores_loop.
  - split; [done|]. intros nr. unfold range0. rewrite elem_of_seqZ. lia.
Qed.

(** Three stores, stores 0, 2 and 5 requested: store 2 is selected. *)
Example GetVssStores_0_2_5 :
  (GetVssStores (H := sample_runtime) (sample_collector true (Some [0; 2; 5])) 0
     fresh_state).1.1 = Return [2].
Proof. by vm_compute. Qed.

(** C5 fails for an explicit list that is empty: nothing is requested, and
    every store is selected. *)
Lemma GetVssStores_empty_list_selects_all :
  (GetVssStores (H := sample_runtime) (sample_collector true (Some [])) 0
     fresh_state).1.1 = Return [0; 1; 2] ∧
  ¬ selects_requested_stores (H := sample_runtime)
      (sample_collector true (Some [])) 0 fresh_state.
Proof.
  split; [by vm_compute|]. intros Hclaim.
  destruct (Hclaim [] eq_refl eq_refl) as (stores & Hrun & Hsel).
  vm_compute in Hrun. injection Hrun as <-.
  destruct (proj1 (Hsel 0)) as [Hin _]; [by constructor|].
  by apply elem_of_nil in Hin.
Qed.

(** ** The byte offset *)

Lemma py_or_offset (offset_bytes offset : Z) :
  py_or offset_bytes (offset * SECTOR_SIZE)
  = if decide (offset_bytes = 0) then offset * 512 else offset_bytes.
Proof.
  unfold py_or, SECTOR_SIZE. destruct (Z.eqb_spec offset_bytes 0); by case_decide.
Qed.

Lemma offsets_used_hereditary (offset : Z) :
  hereditary (on_trace (λ t, Forall (eq offset) (offsets_used t))).
Proof.
  apply on_trace_hereditary; [by constructor|]. unfold offsets_used.
  intros t1 t2 H1 H2. rewrite omap_app. by apply Forall_app.
Qed.

(** C9: every byte offset a Collect method of an image collector hands to the
    cache, to the store count or to a preprocessing collector is the configured
    byte offset when that is not zero (zero is the value of an offset that was
    not given), and the sector offset times 512 otherwise; the main volume is
    always opened, or filtered, at that offset. *)
Theorem Collect_byte_offset `{Runtime} (fuel : nat) (self : SimpleImageCollector)
    (file_filter : string) (s : State) :
  let offset :=
    if decide (_offset_bytes self = 0) then _offset self * 512
    else _offset_bytes self in
  let targeted := {| super := self; _file_filter := file_filter |} in
  (Forall (eq offset) (offsets_used (SimpleImageCollector_Collect fuel self s).2) ∧
   EvOpen (_image self) offset None ∈ (SimpleImageCollector_Collect fuel self s).2) ∧
  (Forall (eq offset)
     (offsets_used (TargetedImageCollector_Collect fuel targeted s).2) ∧
   EvGetPathSpecs (TSKFileCollector (_image self) offset) file_filter
     ∈ (TargetedImageCollector_Collect fuel targeted s).2).
Proof.
  intros offset targeted. subst offset targeted.
  rewrite <- py_or_offset.
  set (offset := py_or _ _).
  assert (Hlog : ∀ level fmt,
    keeps (on_trace (λ t, Forall (eq offset) (offsets_used t))) (logging level fmt)).
  { intros. apply keeps_emit. intros. constructor. }
  assert (Hdir : ∀ fs inode,
    keeps (on_trace (λ t, Forall (eq offset) (offsets_used t))) (open_dir fs inode)).
  { intros. apply keeps_on_trace_open_dir. constructor. }
  assert (Hfile : ∀ proto inode meta,
    keeps (on_trace (λ t, Forall (eq offset) (offsets_used t)))
      (queue_file self proto inode meta)).
  { intros. apply keeps_on_trace_queue_file; constructor. }
  repeat split.
  - destruct (SimpleImageCollector_Collect fuel self s) as [[o s'] t] eqn:E.
    revert E.
    apply (keeps_SimpleImageCollector_Collect
             (on_trace (λ t, Forall (eq offset) (offsets_used t))));
      auto using offsets_used_hereditary.
    + intros. by repeat constructor.
    + intros. by repeat constructor.
    + intros. constructor.
  - unfold SimpleImageCollector_Collect, fscache_Open, try_except. fold offset.
    unfold_M. simpl.
    repeat (case_match; simplify_eq/=); set_solver.
  - destruct (TargetedImageCollector_Collect _ _ s) as [[o s'] t] eqn:E.
    revert E.
    apply (keeps_TargetedImageCollector_Collect
             (on_trace (λ t, Forall (eq offset) (offsets_used t))));
      auto using offsets_used_hereditary.
    + intros. by repeat constructor.
    + intros c s0 [->|[store_nr ->]]; by repeat constructor.
    + intros. constructor.
  - unfold TargetedImageCollector_Collect, queue_pathspecs, try_finally.
    fold offset. unfold_M. simpl.
    repeat (case_match; simplify_eq/=); set_solver.
Qed.

(** ** The hash list *)

Lemma hashlist_le_hereditary :
  hereditary (λ s s' _, hashlist_le (hashlist s) (hashlist s')).
Proof.
  split.
  - intros s. unfold hashlist_le. by destruct (hashlist s).
  - intros s1 s2 s3 _ _. unfold hashlist_le.
    destruct (hashlist s1), (hashlist s2), (hashlist s3); naive_solver.
Qed.

Lemma hashlist_eq_hereditary : hereditary (λ s s' _, hashlist s' = hashlist s).
Proof. split; [done|]. intros s1 s2 s3 _ _ H1 H2. by rewrite H2. Qed.

Lemma open_dir_hashlist fs inode s :
  hashlist (open_dir fs inode s).1.2 = hashlist s.
Proof. unfold open_dir. by repeat case_match. Qed.

Section queue_file.
Context `{Runtime} (self : SimpleImageCollector) (proto : EventPathSpec).
Context (inode_addr : Z) (meta : TSK_FS_META) (s : State).

Lemma queue_file_without_vss :
  _vss self = false →
  queue_file self proto inode_addr meta s
  = (Return tt, s, [EvQueue (ProtoString proto)]).
Proof. intros Hvss. unfold queue_file. by rewrite Hvss. Qed.

Lemma queue_file_seen hl :
  _vss self = true → hashlist s = Some hl →
  CalculateNTFSTimeHash meta ∈ default [] (hl !! inode_addr) →
  queue_file self proto inode_addr meta s = (Return tt, s, []).
Proof.
  intros Hvss Hhl Hin. unfold queue_file. rewrite Hvss. unfold_M. simpl.
  rewrite Hhl. by rewrite bool_decide_eq_true_2.
Qed.

Lemma queue_file_new hl :
  _vss self = true → hashlist s = Some hl →
  CalculateNTFSTimeHash meta ∉ default [] (hl !! inode_addr) →
  queue_file self proto inode_addr meta s
  = (Return tt,
     {| hashlist :=
          Some (<[inode_addr :=
                    default [] (hl !! inode_addr) ++ [CalculateNTFSTimeHash meta]]> hl);
        io_faults := io_faults s |},
     [EvQueue (ProtoString proto)]).
Proof.
  intros Hvss Hhl Hin. unfold queue_file. rewrite Hvss. unfold_M. simpl.
  rewrite Hhl. by rewrite bool_decide_eq_false_2.
Qed.

Lemma queue_file_hashlist_le :
  hashlist_le (hashlist s) (hashlist (queue_file self proto inode_addr meta s).1.2).
Proof.
  destruct (_vss self) eqn:Hvss.
  - destruct (hashlist s) as [hl|] eqn:Hhl.
    + destruct (decide (CalculateNTFSTimeHash meta ∈ default [] (hl !! inode_addr))).
      * erewrite queue_file_seen by done. simpl. rewrite Hhl. intros inode h Hh. exact Hh.
      * erewrite queue_file_new by done. simpl. intros inode h Hh.
        destruct (decide (inode_addr = inode)) as [->|Hne].
        -- rewrite lookup_insert_eq. simpl. apply elem_of_app. by left.
        -- by rewrite lookup_insert_ne.
    + unfold queue_file. rewrite Hvss. unfold_M. simpl.
      rewrite Hhl. simpl. by rewrite Hhl.
  - rewrite queue_file_without_vss by done. simpl.
    apply (hereditary_nil _ hashlist_le_hereditary).
Qed.
End queue_file.

Lemma read_entry_bound f ns ns' name_str inode_addr f_type meta :
  read_entry f ns = ReadBound name_str inode_addr f_type meta →
  read_entry f ns' = ReadBound name_str inode_addr f_type meta.
Proof. unfold read_entry. by repeat case_match. Qed.

(** A regular file goes to [queue_file], and binds [name_str]. *)
Lemma ParseImageDir_entry_regular `{Runtime} self fs path f name_str inode_addr
    meta locals :
  regular_file f name_str inode_addr meta →
  ParseImageDir_entry self fs path f locals
  = (queue_file self (transfer_proto fs path name_str inode_addr) inode_addr meta;;
     mret (Some name_str, locals.2)).
Proof.
  intros [Hread Hname]. destruct locals as [ns directories].
  unfold ParseImageDir_entry.
  rewrite (read_entry_bound _ _ ns _ _ _ _ Hread).
  by rewrite bool_decide_eq_false_2.
Qed.


Lemma ParseImageDir_entry_hashlist_le `{Runtime} self fs path f locals :
  keeps (λ s s' _, hashlist_le (hashlist s) (hashlist s'))
    (ParseImageDir_entry self fs path f locals).
Proof.
  apply keeps_ParseImageDir_entry.
  - apply hashlist_le_hereditary.
  - intros. apply keeps_emit. intros. apply hashlist_le_hereditary.
  - intros proto inode meta s o s' t E.
    pose proof (queue_file_hashlist_le self proto inode meta s) as Hh.
    by rewrite E in Hh.
Qed.

Lemma ParseImageDir_hashlist_eq `{Runtime} fuel self fs cur_inode path retry :
  _vss self = false →
  keeps (λ s s' _, hashlist s' = hashlist s)
    (ParseImageDir fuel self fs cur_inode path retry).
Proof.
  intros Hvss. apply keeps_ParseImageDir.
  - apply hashlist_eq_hereditary.
  - intros. by apply keeps_emit.
  - intros fs' inode s o s' t E.
    pose proof (open_dir_hashlist fs' inode s) as Hh. by rewrite E in Hh.
  - intros proto inode meta s o s' t E.
    rewrite queue_file_without_vss in E by done. by injection E as <- <- <-.
Qed.

Lemma append_empty_r (str : string) : str +:+ "" = str.
Proof.
  induction str as [|c str IH]; [done|].
  change (String c (str +:+ "") = String c str). by rewrite IH.
Qed.

Lemma CalculateNTFSTimeHash_text `{Runtime} meta :
  CalculateNTFSTimeHash meta
  = md5_hexdigest
      (fingerprint_text (zip ["atime"; "crtime"; "mtime"; "ctime"] (timestamps meta))).
Proof.
  unfold CalculateNTFSTimeHash, fingerprint_text, timestamps. simpl.
  by rewrite append_empty_r.
Qed.

(** C3: in a collector that parses VSS, a regular file whose inode already
    has the file's fingerprint in the hash list is passed over, nothing queued
    and nothing changed; otherwise the fingerprint is appended to the list of
    that inode and the path spec is queued. The fingerprint is the digest of
    the text made of the four timestamp pairs (access, creation, modification,
    change; seconds and fraction in decimal, a missing field as 0), so it is
    the same for any two files with the same pairs. *)
Theorem snapshot_mode_dedup `{Runtime} (self : SimpleImageCollector)
    (fs : CacheFileSystem) (path : string) (f : TSK_FS_FILE) (name_str : string)
    (inode_addr : Z) (meta : TSK_FS_META)
    (locals : option string * list (Z * string)) (s : State)
    (hl : gmap Z (list string)) :
  _vss self = true →
  regular_file f name_str inode_addr meta →
  hashlist s = Some hl →
  let hash_value := CalculateNTFSTimeHash meta in
  let seen := default [] (hl !! inode_addr) in
  ParseImageDir_entry self fs path f locals s
  = (if decide (hash_value ∈ seen)
     then (Return (Some name_str, locals.2), s, [])
     else (Return (Some name_str, locals.2),
           {| hashlist := Some (<[inode_addr := seen ++ [hash_value]]> hl);
              io_faults := io_faults s |},
           [EvQueue (ProtoString (transfer_proto fs path name_str inode_addr))])) ∧
  hash_value
  = md5_hexdigest
      (fingerprint_text (zip ["atime"; "crtime"; "mtime"; "ctime"] (timestamps meta))) ∧
  ∀ meta', timestamps meta' = timestamps meta →
    CalculateNTFSTimeHash meta' = hash_value.
Proof.
  intros Hvss Hreg Hhl hash_value seen. repeat split.
  - erewrite ParseImageDir_entry_regular by done. unfold_M.
    case_decide.
    + by erewrite queue_file_seen.
    + by erewrite queue_file_new.
  - apply CalculateNTFSTimeHash_text.
  - intros meta' Hts. subst hash_value.
    by rewrite !CalculateNTFSTimeHash_text, Hts.
Qed.

Lemma sample_entry_regular name inode ts :
  name ∉ ["$OrphanFiles"; "."; ".."] →
  regular_file (sample_entry name inode TSK_FS_META_TYPE_REG ts) name inode
    (sample_meta inode TSK_FS_META_TYPE_REG ts).
Proof. intros Hname. by split. Defined.

Lemma a_txt_not_skipped : "a.txt" ∉ ["$OrphanFiles"; "."; ".."].
Proof. rewrite !not_elem_of_cons. repeat split; [done..|]. apply not_elem_of_nil. Defined.

Lemma h_not_skipped : "h" ∉ ["$OrphanFiles"; "."; ".."].
Proof. rewrite !not_elem_of_cons. repeat split; [done..|]. apply not_elem_of_nil. Defined.

(** C3 on /a.txt of store 0 of the sample image, the hash list empty. *)
Lemma snapshot_mode_dedup_witness :
  ParseImageDir_entry (H := sample_runtime) (sample_collector true None)
    (sample_volume 0) "/" (sample_entry "a.txt" 5 TSK_FS_META_TYPE_REG 10)
    (None, []) collecting_state
  = (Return (Some "a.txt", []),
     {| hashlist :=
          Some {[ 5 := ["atime:10.0crtime:10.0mtime:10.0ctime:10.0"] ]};
        io_faults := ∅ |},
     [EvQueue (ProtoString
        {| type := "VSS"; vss_store_number := Some 0;
           container_path := "image.dd"; image_offset := 0; image_inode := 5;
           file_path := "/a.txt" |})]).
Proof.
  pose proof (snapshot_mode_dedup (H := sample_runtime)
    (sample_collector true None) (sample_volume 0) "/"
    (sample_entry "a.txt" 5 TSK_FS_META_TYPE_REG 10) "a.txt" 5
    (sample_meta 5 TSK_FS_META_TYPE_REG 10) (None, []) collecting_state ∅
    eq_refl (sample_entry_regular "a.txt" 5 10 a_txt_not_skipped) eq_refl)
    as [Hstep _].
  rewrite Hstep. rewrite decide_False; [done|]. simpl. apply not_elem_of_nil.
Defined.

(** C4, as the code has it: the hash list is consulted and updated in every
    walk of a collector that parses VSS, the walk of the main volume (a file
    system with a negative store number) included: there too a regular file
    is passed over when its inode has its fingerprint, and is otherwise
    recorded and queued. Only with VSS parsing off does a walk queue every
    regular file it finds and leave the hash list alone. *)
Theorem hashlist_used_whenever_vss_is_on `{Runtime} (self : SimpleImageCollector)
    (fs : CacheFileSystem) (path : string) (f : TSK_FS_FILE) (name_str : string)
    (inode_addr : Z) (meta : TSK_FS_META)
    (locals : option string * list (Z * string)) (s : State) :
  regular_file f name_str inode_addr meta →
  (_vss self = false →
     ParseImageDir_entry self fs path f locals s
     = (Return (Some name_str, locals.2), s,
        [EvQueue (ProtoString (transfer_proto fs path name_str inode_addr))]) ∧
     ∀ fuel cur_inode retry,
       hashlist (ParseImageDir fuel self fs cur_inode path retry s).1.2 = hashlist s) ∧
  (_vss self = true → fs_store_nr fs < 0 →
     ∀ hl, hashlist s = Some hl →
       type (transfer_proto fs path name_str inode_addr) = "TSK" ∧
       ParseImageDir_entry self fs path f locals s
       = (if decide (CalculateNTFSTimeHash meta ∈ default [] (hl !! inode_addr))
          then (Return (Some name_str, locals.2), s, [])
          else (Return (Some name_str, locals.2),
                {| hashlist :=
                     Some (<[inode_addr :=
                               default [] (hl !! inode_addr)
                                 ++ [CalculateNTFSTimeHash meta]]> hl);
                   io_faults := io_faults s |},
                [EvQueue (ProtoString (transfer_proto fs path name_str inode_addr))]))).
Proof.
  intros Hreg. split.
  - intros Hvss. split.
    + erewrite ParseImageDir_entry_regular by done. unfold_M.
      by rewrite queue_file_without_vss.
    + intros fuel cur_inode retry.
      destruct (ParseImageDir fuel self fs cur_inode path retry s)
        as [[o s'] t] eqn:E.
      by apply (ParseImageDir_hashlist_eq fuel self fs cur_inode path retry Hvss) in E.
  - intros Hvss Hmain hl Hhl. split.
    + unfold transfer_proto. simpl. by rewrite (proj2 (Z.leb_gt _ _)).
    + erewrite ParseImageDir_entry_regular by done. unfold_M.
      case_decide.
      * by erewrite queue_file_seen.
      * by erewrite queue_file_new.
Qed.

(** C4 on the main volume of the sample image: with VSS parsing off /h is
    queued; with it on /h, the hard link of /a.txt, finds the fingerprint that
    /a.txt left under inode 5 and is passed over. *)
Lemma hashlist_used_whenever_vss_is_on_witness :
  ParseImageDir_entry (H := sample_runtime) (sample_collector false None)
    (sample_volume (-1)) "/" (sample_entry "h" 5 TSK_FS_META_TYPE_REG 10)
    (None, []) fresh_state
  = (Return (Some "h", []), fresh_state,
     [EvQueue (ProtoString
        (transfer_proto (sample_volume (-1)) "/" "h" 5))]) ∧
  ParseImageDir_entry (H := sample_runtime) (sample_collector true None)
    (sample_volume (-1)) "/" (sample_entry "h" 5 TSK_FS_META_TYPE_REG 10)
    (None, [])
    {| hashlist := Some {[ 5 := ["atime:10.0crtime:10.0mtime:10.0ctime:10.0"] ]};
       io_faults := ∅ |}
  = (Return (Some "h", []),
     {| hashlist := Some {[ 5 := ["atime:10.0crtime:10.0mtime:10.0ctime:10.0"] ]};
        io_faults := ∅ |}, []).
Proof.
  split.
  - apply (hashlist_used_whenever_vss_is_on (H := sample_runtime)
      (sample_collector false None) (sample_volume (-1)) "/"
      (sample_entry "h" 5 TSK_FS_META_TYPE_REG 10) "h" 5
      (sample_meta 5 TSK_FS_META_TYPE_REG 10) (None, []) fresh_state
      (sample_entry_regular "h" 5 10 h_not_skipped)).
    reflexivity.
  - pose proof (hashlist_used_whenever_vss_is_on (H := sample_runtime)
      (sample_collector true None) (sample_volume (-1)) "/"
      (sample_entry "h" 5 TSK_FS_META_TYPE_REG 10) "h" 5
      (sample_meta 5 TSK_FS_META_TYPE_REG 10) (None, [])
      {| hashlist := Some {[ 5 := ["atime:10.0crtime:10.0mtime:10.0ctime:10.0"] ]};
         io_faults := ∅ |}
      (sample_entry_regular "h" 5 10 h_not_skipped)) as [_ Hon].
    destruct (Hon eq_refl eq_refl _ eq_refl) as [_ Hstep].
    rewrite Hstep. rewrite decide_True; [done|]. by constructor.
Defined.

(** C4 fails on the main volume of the sample image: its walk, with VSS
    parsing on, fills the hash list and does not queue /h. *)
Lemma main_walk_uses_hashlist :
  queued (ParseImageDir (H := sample_runtime) 5 (sample_collector true None)
            (sample_volume (-1)) 2 "/" false collecting_state).2
  = [ProtoString (transfer_proto (sample_volume (-1)) "/" "a.txt" 5);
     ProtoString (transfer_proto (sample_volume (-1)) "/b" "c.txt" 7)] ∧
  ¬ main_walk_bypasses_hashlist (H := sample_runtime) 5
      (sample_collector true None) (sample_volume (-1)) collecting_state.
Proof.
  split; [by vm_compute|]. intros Hclaim.
  destruct (Hclaim eq_refl) as [_ Hq]. vm_compute in Hq. discriminate Hq.
Qed.

Section entry_steps.
Context `{Runtime} (self : SimpleImageCollector) (Hvss : _vss self = true).
Context (f : TSK_FS_FILE) (name_str : string) (inode_addr : Z).
Context (meta : TSK_FS_META) (Hreg : regular_file f name_str inode_addr meta).

Lemma ParseImageDir_entry_seen fs path locals s hl :
  hashlist s = Some hl →
  CalculateNTFSTimeHash meta ∈ default [] (hl !! inode_addr) →
  ParseImageDir_entry self fs path f locals s
  = (Return (Some name_str, locals.2), s, []).
Proof.
  intros Hhl Hin. erewrite ParseImageDir_entry_regular by done. unfold_M.
  by erewrite queue_file_seen.
Qed.

Lemma ParseImageDir_entry_new fs path locals s hl :
  hashlist s = Some hl →
  CalculateNTFSTimeHash meta ∉ default [] (hl !! inode_addr) →
  ParseImageDir_entry self fs path f locals s
  = (Return (Some name_str, locals.2),
     {| hashlist :=
          Some (<[inode_addr :=
                    default [] (hl !! inode_addr) ++ [CalculateNTFSTimeHash meta]]> hl);
        io_faults := io_faults s |},
     [EvQueue (ProtoString (transfer_proto fs path name_str inode_addr))]).
Proof.
  intros Hhl Hin. erewrite ParseImageDir_entry_regular by done. unfold_M.
  by erewrite queue_file_new.
Qed.

(** After the entry its fingerprint is in the hash list, under its inode. *)
Lemma ParseImageDir_entry_records fs path locals s hl :
  hashlist s = Some hl →
  ∃ hl1,
    hashlist (ParseImageDir_entry self fs path f locals s).1.2 = Some hl1 ∧
    CalculateNTFSTimeHash meta ∈ default [] (hl1 !! inode_addr) ∧
    (ParseImageDir_entry self fs path f locals s).1.1
      = Return (Some name_str, locals.2).
Proof.
  intros Hhl.
  destruct (decide (CalculateNTFSTimeHash meta ∈ default [] (hl !! inode_addr))).
  - erewrite ParseImageDir_entry_seen by done. by exists hl.
  - erewrite ParseImageDir_entry_new by done. eexists. split; [done|].
    split; [|done]. rewrite lookup_insert_eq. simpl.
    apply elem_of_app. right. by constructor.
Qed.

(** A state whose hash list holds the fingerprint: the entry is passed
    over. *)
Lemma ParseImageDir_entry_after fs path locals s1 s2 hl1 :
  hashlist s1 = Some hl1 →
  CalculateNTFSTimeHash meta ∈ default [] (hl1 !! inode_addr) →
  hashlist_le (hashlist s1) (hashlist s2) →
  ParseImageDir_entry self fs path f locals s2
  = (Return (Some name_str, locals.2), s2, []).
Proof.
  intros Hhl1 Hin Hle. rewrite Hhl1 in Hle.
  destruct (hashlist s2) as [hl2|] eqn:Hhl2; [|done].
  eapply ParseImageDir_entry_seen; [done|]. by apply Hle.
Qed.
End entry_steps.

(** C10: the hash list is keyed by the inode, not by the path. Take two
    entries of different names that are regular files of the same inode with
    the same fingerprint. In a collector that parses VSS the first is queued
    when the fingerprint is new for the inode, and once it has been seen the
    second queues nothing: neither later in the same listing, whatever lies
    between the two, nor anywhere else in a state that kept what the first
    recorded. With VSS parsing off each of the two is queued. *)
Theorem dedup_keyed_by_inode `{Runtime} (self : SimpleImageCollector)
    (fs : CacheFileSystem) (path : string) (f1 f2 : TSK_FS_FILE)
    (name1 name2 : string) (inode_addr : Z) (meta1 meta2 : TSK_FS_META) :
  regular_file f1 name1 inode_addr meta1 →
  regular_file f2 name2 inode_addr meta2 →
  name1 ≠ name2 →
  CalculateNTFSTimeHash meta1 = CalculateNTFSTimeHash meta2 →
  (_vss self = true →
     ∀ locals s hl, hashlist s = Some hl →
       (CalculateNTFSTimeHash meta1 ∉ default [] (hl !! inode_addr) →
          (ParseImageDir_entry self fs path f1 locals s).2
          = [EvQueue (ProtoString (transfer_proto fs path name1 inode_addr))]) ∧
       (∀ between locals' s' t',
          for_loop (f1 :: between) (ParseImageDir_entry self fs path) locals s
          = (Return locals', s', t') →
          ParseImageDir_entry self fs path f2 locals' s'
          = (Return (Some name2, locals'.2), s', [])) ∧
       (∀ fs2 path2 locals2 s2,
          hashlist_le (hashlist (ParseImageDir_entry self fs path f1 locals s).1.2)
            (hashlist s2) →
          ParseImageDir_entry self fs2 path2 f2 locals2 s2
          = (Return (Some name2, locals2.2), s2, []))) ∧
  (_vss self = false →
     ∀ locals s,
       for_loop [f1; f2] (ParseImageDir_entry self fs path) locals s
       = (Return (Some name2, locals.2), s,
          [EvQueue (ProtoString (transfer_proto fs path name1 inode_addr));
           EvQueue (ProtoString (transfer_proto fs path name2 inode_addr))])).
Proof.
  intros Hreg1 Hreg2 _ Hsame. split.
  - intros Hvss locals s hl Hhl.
    destruct (ParseImageDir_entry_records self Hvss f1 name1 inode_addr meta1
                Hreg1 fs path locals s hl Hhl) as (hl1 & Hhl1 & Hin1 & Hret1).
    rewrite Hsame in Hin1.
    split; [|split].
    + intros Hnew. by erewrite ParseImageDir_entry_new.
    + intros between locals' s' t'. simpl.
      destruct (ParseImageDir_entry self fs path f1 locals s)
        as [[o1 s1] t1] eqn:E1. simpl in Hhl1, Hret1. subst o1.
      erewrite run_bind_Return by done.
      destruct (for_loop between _ _ s1) as [[o2 s2] t2] eqn:E2. simpl.
      intros [= -> <- <-].
      eapply (ParseImageDir_entry_after self Hvss f2); [done..|].
      revert E2. apply (keeps_for_loop _ hashlist_le_hereditary).
      intros. apply ParseImageDir_entry_hashlist_le.
    + intros fs2 path2 locals2 s2 Hle.
      by eapply (ParseImageDir_entry_after self Hvss f2).
  - intros Hvss locals s. simpl.
    rewrite !(ParseImageDir_entry_regular self fs path _ _ _ _ _ Hreg1).
    unfold_M. rewrite queue_file_without_vss by done.
    rewrite !(ParseImageDir_entry_regular self fs path _ _ _ _ _ Hreg2).
    unfold_M. by rewrite queue_file_without_vss.
Qed.

(** C10 on /a.txt and its hard link /h of the sample image. *)
Lemma dedup_keyed_by_inode_witness :
  (for_loop
     [sample_entry "a.txt" 5 TSK_FS_META_TYPE_REG 10;
      sample_entry "h" 5 TSK_FS_META_TYPE_REG 10]
     (ParseImageDir_entry (H := sample_runtime) (sample_collector false None)
        (sample_volume 0) "/")
     (None, []) fresh_state).2
  = [EvQueue (ProtoString (transfer_proto (sample_volume 0) "/" "a.txt" 5));
     EvQueue (ProtoString (transfer_proto (sample_volume 0) "/" "h" 5))] ∧
  ParseImageDir_entry (H := sample_runtime) (sample_collector true None)
    (sample_volume 0) "/" (sample_entry "h" 5 TSK_FS_META_TYPE_REG 10)
    (Some "a.txt", [])
    {| hashlist := Some {[ 5 := ["atime:10.0crtime:10.0mtime:10.0ctime:10.0"] ]};
       io_faults := ∅ |}
  = (Return (Some "h", []),
     {| hashlist := Some {[ 5 := ["atime:10.0crtime:10.0mtime:10.0ctime:10.0"] ]};
        io_faults := ∅ |}, []).
Proof.
  assert (Hne : "a.txt" ≠ "h") by discriminate.
  split.
  - pose proof (dedup_keyed_by_inode (H := sample_runtime)
      (sample_collector false None) (sample_volume 0) "/" _ _ "a.txt" "h" 5 _ _
      (sample_entry_regular "a.txt" 5 10 a_txt_not_skipped)
      (sample_entry_regular "h" 5 10 h_not_skipped) Hne eq_refl) as [_ Hoff].
    by rewrite (Hoff eq_refl (None, []) fresh_state).
  - pose proof (dedup_keyed_by_inode (H := sample_runtime)
      (sample_collector true None) (sample_volume 0) "/" _ _ "a.txt" "h" 5 _ _
      (sample_entry_regular "a.txt" 5 10 a_txt_not_skipped)
      (sample_entry_regular "h" 5 10 h_not_skipped) Hne eq_refl) as [Hon _].
    destruct (Hon eq_refl (None, []) collecting_state ∅ eq_refl) as (_ & Hloop & _).
    apply (Hloop [] (Some "a.txt", []) _
             [EvQueue (ProtoString (transfer_proto (sample_volume 0) "/" "a.txt" 5))]).
    reflexivity.
Defined.

(** ** Directories that do not open *)

Lemma open_dir_trace fs inode s :
  (open_dir fs inode s).2 = [EvOpenDir (fs_store_nr fs) inode].
Proof. unfold open_dir. by repeat case_match. Qed.

Lemma open_dir_outcome fs inode s :
  (open_dir fs inode s).1.1 = Raise IOError ∨
  ∃ directory, (open_dir fs inode s).1.1 = Return directory.
Proof. unfold open_dir. repeat case_match; eauto. Qed.

Lemma open_dir_run fs inode s :
  open_dir fs inode s
  = ((open_dir fs inode s).1.1, (open_dir fs inode s).1.2,
     [EvOpenDir (fs_store_nr fs) inode]).
Proof.
  rewrite <- (open_dir_trace fs inode s).
  by destruct (open_dir fs inode s) as [[??]?].
Qed.

(** A directory that opens is walked the same way at the second attempt as
    at the first. *)
Lemma ParseImageDir_retry_irrelevant `{Runtime} fuel self fs cur_inode path s
    directory :
  (open_dir fs cur_inode s).1.1 = Return directory →
  ParseImageDir fuel self fs cur_inode path true s
  = ParseImageDir fuel self fs cur_inode path false s.
Proof.
  intros Hopen. destruct fuel as [|fuel]; [done|]. simpl.
  unfold try_except. unfold_M.
  rewrite (open_dir_run fs cur_inode s), Hopen. done.
Qed.

(** The first failure: the two log records, then the second attempt. *)
Lemma ParseImageDir_open_fails `{Runtime} n self fs cur_inode path s s1 :
  open_fails fs cur_inode s →
  s1 = (open_dir fs cur_inode s).1.2 →
  ParseImageDir (S n) self fs cur_inode path false s
  = ((ParseImageDir n self fs cur_inode path true s1).1.1,
     (ParseImageDir n self fs cur_inode path true s1).1.2,
     [EvOpenDir (fs_store_nr fs) cur_inode;
      EvLog ERROR "IOError while trying to open a directory: %s [%d]";
      EvLog INFO "Reopening directory due to an IOError: %s"]
     ++ (ParseImageDir n self fs cur_inode path true s1).2).
Proof.
  intros Hfail Hs1. cbn [ParseImageDir]. unfold try_except. unfold_M.
  rewrite (open_dir_run fs cur_inode s), Hfail, <- Hs1. simpl.
  by destruct (ParseImageDir n self fs cur_inode path true s1) as [[??]?].
Qed.

(** The second failure: one log record, and the call returns. *)
Lemma ParseImageDir_retry_fails `{Runtime} n self fs cur_inode path s1 s2 :
  open_fails fs cur_inode s1 →
  s2 = (open_dir fs cur_inode s1).1.2 →
  ParseImageDir (S n) self fs cur_inode path true s1
  = (Return tt, s2,
     [EvOpenDir (fs_store_nr fs) cur_inode;
      EvLog ERROR "IOError while trying to open a directory: %s [%d]"]).
Proof.
  intros Hfail Hs2. cbn [ParseImageDir]. unfold try_except. unfold_M.
  rewrite (open_dir_run fs cur_inode s1), Hfail, <- Hs2. by simpl.
Qed.

(** C7: when opening a directory raises IOError the walk opens the same
    directory once more. If that fails too the call ends normally after these
    two attempts, having logged and queued nothing, and the loop over the
    directories found so far goes on with the next one. If the second attempt
    succeeds, the walk is that of the directory opening at once (in the state
    the failed attempt left), after the three records of the failure: the same
    outcome, the same path specs queued. *)
Theorem directory_open_retried_once `{Runtime} (fuel : nat)
    (self : SimpleImageCollector) (fs : CacheFileSystem) (cur_inode : Z)
    (path : string) (s : State) :
  open_fails fs cur_inode s →
  let s1 := (open_dir fs cur_inode s).1.2 in
  let failure :=
    [EvOpenDir (fs_store_nr fs) cur_inode;
     EvLog ERROR "IOError while trying to open a directory: %s [%d]";
     EvLog INFO "Reopening directory due to an IOError: %s"] in
  (open_fails fs cur_inode s1 →
     let abandoned :=
       failure ++
       [EvOpenDir (fs_store_nr fs) cur_inode;
        EvLog ERROR "IOError while trying to open a directory: %s [%d]"] in
     ParseImageDir (S (S fuel)) self fs cur_inode path false s
     = (Return tt, (open_dir fs cur_inode s1).1.2, abandoned) ∧
     ∀ siblings,
       let rest :=
         for_each siblings
           (λ d, ParseImageDir (S (S fuel)) self fs d.1 d.2 false)
           (open_dir fs cur_inode s1).1.2 in
       for_each ((cur_inode, path) :: siblings)
         (λ d, ParseImageDir (S (S fuel)) self fs d.1 d.2 false) s
       = (rest.1.1, rest.1.2, abandoned ++ rest.2)) ∧
  (∀ directory,
     (open_dir fs cur_inode s1).1.1 = Return directory →
     let unfailing := ParseImageDir fuel self fs cur_inode path false s1 in
     ParseImageDir (S fuel) self fs cur_inode path false s
     = (unfailing.1.1, unfailing.1.2, failure ++ unfailing.2) ∧
     queued (ParseImageDir (S fuel) self fs cur_inode path false s).2
     = queued unfailing.2).
Proof.
  intros Hfail s1 failure.
  assert (Hs1 : s1 = (open_dir fs cur_inode s).1.2) by done.
  clearbody s1. split.
  - intros Hagain abandoned.
    set (s2 := (open_dir fs cur_inode s1).1.2).
    assert (Hs2 : s2 = (open_dir fs cur_inode s1).1.2) by done.
    clearbody s2.
    assert (Hwalk : ParseImageDir (S (S fuel)) self fs cur_inode path false s
                    = (Return tt, s2, abandoned)).
    { rewrite (ParseImageDir_open_fails (S fuel) self fs cur_inode path s s1 Hfail Hs1).
      by rewrite (ParseImageDir_retry_fails fuel self fs cur_inode path s1 s2 Hagain Hs2). }
    split; [exact Hwalk|]. intros siblings rest.
    change (for_each ((cur_inode, path) :: siblings) ?body)
      with (body (cur_inode, path);; for_each siblings body).
    by erewrite run_bind_Return by exact Hwalk.
  - intros directory Hopen unfailing. subst unfailing.
    rewrite <- (ParseImageDir_retry_irrelevant fuel self fs cur_inode path s1
                  directory Hopen).
    rewrite (ParseImageDir_open_fails fuel self fs cur_inode path s s1 Hfail Hs1).
    split; [done|]. cbn [snd]. unfold queued. by rewrite omap_app.
Qed.

(** C7 on directory /b of the sample image, whose first opening fails: the
    walk still queues /b/c.txt. *)
Lemma directory_open_retried_once_witness :
  open_fails (sample_volume (-1)) 6 faulty_state ∧
  queued (ParseImageDir (H := sample_runtime) 3 (sample_collector false None)
            (sample_volume (-1)) 6 "/b" false faulty_state).2
  = [ProtoString (transfer_proto (sample_volume (-1)) "/b" "c.txt" 7)].
Proof.
  assert (Hfail : open_fails (sample_volume (-1)) 6 faulty_state)
    by (vm_compute; reflexivity).
  split; [exact Hfail|].
  destruct (directory_open_retried_once (H := sample_runtime) 2
              (sample_collector false None) (sample_volume (-1)) 6 "/b"
              faulty_state Hfail) as [_ Hretry].
  assert (Hopen : (open_dir (sample_volume (-1)) 6
                     (open_dir (sample_volume (-1)) 6 faulty_state).1.2).1.1
                  = Return [sample_entry "c.txt" 7 TSK_FS_META_TYPE_REG (20 + -1)])
    by (vm_compute; reflexivity).
  destruct (Hretry _ Hopen) as [_ Hq].
  rewrite Hq. vm_compute. reflexivity.
Defined.

(** ** Entries that cannot be read *)

(** An entry that has no metadata ([f.info.meta] is None), like one without a
    name or one that is unallocated, is passed over without a log record. *)
Lemma ParseImageDir_entry_continue `{Runtime} self fs path f locals s :
  read_entry f locals.1 = ReadContinue →
  ParseImageDir_entry self fs path f locals s = (Return locals, s, []).
Proof.
  destruct locals as [name_str directories]. intros Hread.
  unfold ParseImageDir_entry. simpl in Hread. by rewrite Hread.
Qed.

Example entry_without_metadata_reads_as_continue name_str :
  read_entry
    {| info_name := Attr (Some {| name_name := Attr "gone"; name_flags := Attr 1 |});
       info_meta := Attr None |} name_str
  = ReadContinue.
Proof. reflexivity. Qed.

(** An AttributeError in an entry, once [name_str] is bound: the entry is
    logged and the loop goes on. *)
Lemma ParseImageDir_entry_unreadable_later `{Runtime} self fs path f name_str
    name_str' directories s :
  read_entry f (Some name_str) = ReadAttributeError (Some name_str') →
  ParseImageDir_entry self fs path f (Some name_str, directories) s
  = (Return (Some name_str', directories), s,
     [EvLog ERROR "[ParseImage] Problem reading file [%s], error: %s"]).
Proof. intros Hread. unfold ParseImageDir_entry. by rewrite Hread. Qed.

(** An AttributeError in an entry while [name_str] is unbound: the handler
    itself raises, and the loop ends. *)
Lemma ParseImageDir_entry_unreadable_first `{Runtime} self fs path f directories
    rest s :
  read_entry f None = ReadAttributeError None →
  for_loop (f :: rest) (ParseImageDir_entry self fs path) (None, directories) s
  = (Raise (UnboundLocalError "name_str"), s, []).
Proof. intros Hread. simpl. unfold_M. unfold ParseImageDir_entry. by rewrite Hread. Qed.

(** C8 does not hold of the code. The root directory of the damaged volume
    lists an entry whose metadata cannot be read, then /a.txt. The handler of
    the AttributeError reads [name_str], which no earlier entry of the
    directory has bound, and the UnboundLocalError ends the walk, Collect and
    Run: /a.txt is not queued, nothing is logged for the entry, and the queue
    is not closed. *)
Theorem unreadable_first_entry_ends_run :
  read_entry (unreadable_entry "lost") None = ReadAttributeError None ∧
  Run (H := @SimpleImageCollector_Collector sample_runtime) 5 damaged_collector
    fresh_state
  = (Raise (UnboundLocalError "name_str"), fresh_state,
     [EvLog DEBUG "Collecting from an image file [%s]";
      EvOpen "image.dd" 0 None; EvOpenDir (-1) 2]).
Proof. split; [reflexivity|]. vm_compute. reflexivity. Qed.

(** The same two entries in the other order: /a.txt is queued, the unreadable
    entry is logged (under the name of /a.txt) and passed over. *)
Example unreadable_later_entry_is_skipped :
  for_loop
    [sample_entry "a.txt" 5 TSK_FS_META_TYPE_REG 10; unreadable_entry "lost"]
    (ParseImageDir_entry (H := sample_runtime) damaged_collector damaged_volume "/")
    (None, []) fresh_state
  = (Return (Some "a.txt", []), fresh_state,
     [EvQueue (ProtoString (transfer_proto damaged_volume "/" "a.txt" 5));
      EvLog ERROR "[ParseImage] Problem reading file [%s], error: %s"]).
Proof. vm_compute. reflexivity. Qed.

(** ** The store loop of the Collect methods *)

Lemma GetVssStores_run `{Runtime} self offset s :
  ∃ stores,
    (∀ s', GetVssStores self offset s'
           = (Return stores, s',
              if _vss self
              then [EvLog DEBUG "Searching for VSS";
                    EvVssStoreCount (_image self) offset]
              else [])) ∧
    (GetVssStores self offset s).1.1 = Return stores.
Proof.
  unfold GetVssStores. destruct (_vss self); cbn [negb]; [|by eexists].
  unfold_M. destruct (_vss_stores self) as [[|??]|]; by eexists.
Qed.

Lemma queue_pathspecs_run `{Runtime} collector file_filter s :
  queue_pathspecs collector file_filter s
  = (Return tt, s,
     EvGetPathSpecs collector file_filter
       :: ((λ str, EvQueue (PathSpecString str)) <$> GetPathSpecs collector file_filter)).
Proof.
  unfold queue_pathspecs. unfold_M. f_equal.
  induction (GetPathSpecs collector file_filter) as [|str l IH]; [done|].
  simpl. unfold_M. simpl in *.
  destruct (for_each l _ s) as [[o s'] t]. by injection IH as -> -> ->.
Qed.

Lemma queued_pathspecs (l : list string) :
  queued ((λ str, EvQueue (PathSpecString str)) <$> l) = PathSpecString <$> l.
Proof. induction l as [|str l IH]; [done|]. simpl. by f_equal. Qed.

Lemma closes_pathspecs (l : list string) :
  closes ((λ str, EvQueue (PathSpecString str)) <$> l) = [].
Proof. by induction l as [|str l IH]. Qed.

(** ** Exceptions that leave a walk *)

Section raising.
Context (Q : exn → Prop).

Lemma raises_only_ret {A} (a : A) : raises_only Q (mret a).
Proof. by intros s e. Qed.

Lemma raises_only_raise {A} e : Q e → raises_only Q (@raise A e).
Proof. by intros HQ s e' [= <-]. Qed.

Lemma raises_only_emit ev : raises_only Q (emit ev).
Proof. by intros s e. Qed.

Lemma raises_only_bind {A B} (m : M A) (k : A → M B) :
  raises_only Q m → (∀ a, raises_only Q (k a)) → raises_only Q (m ≫= k).
Proof.
  intros Hm Hk s e. unfold raises_only in *. unfold_M.
  specialize (Hm s). destruct (m s) as [[[a|e'|] s1] t1]; simpl in *.
  - specialize (Hk a s1). destruct (k a s1) as [[o2 s2] t2]. simpl in *. apply Hk.
  - intros [= <-]. by apply Hm.
  - done.
Qed.

Lemma raises_only_try_except {A} (m : M A) catches :
  raises_only Q m → raises_only Q (try_except m catches).
Proof.
  intros Hm s e. unfold raises_only, try_except in *. specialize (Hm s).
  destruct (m s) as [[[a|e'|] s1] t1]; simpl in *; [done| |done].
  destruct (catches e'); simpl; [done|]. intros [= <-]. by apply Hm.
Qed.

Lemma raises_only_for_each {A} (l : list A) body :
  (∀ x, raises_only Q (body x)) → raises_only Q (for_each l body).
Proof.
  intros Hb. induction l as [|x l IH]; simpl.
  - apply (raises_only_ret tt).
  - by apply raises_only_bind.
Qed.

Lemma raises_only_for_loop {A L} (l : list A) (body : A → L → M L) locals :
  (∀ x loc, raises_only Q (body x loc)) → raises_only Q (for_loop l body locals).
Proof.
  intros Hb. revert locals. induction l as [|x l IH]; intros locals; simpl.
  - apply raises_only_ret.
  - by apply raises_only_bind.
Qed.
End raising.

(** What can leave the walk is the AttributeError of an unset hash list, the
    UnboundLocalError of the entry handler and the RuntimeError of a recursion
    that is too deep; never an IOError, and never UnableToOpenFilesystem. *)
Lemma ParseImageDir_raises `{Runtime} fuel self fs cur_inode path retry :
  raises_only
    (λ e, e = AttributeError ∨ e = UnboundLocalError "name_str" ∨ e = RuntimeError)
    (ParseImageDir fuel self fs cur_inode path retry).
Proof.
  revert cur_inode path retry.
  induction fuel as [|fuel IH]; intros cur_inode path retry; simpl.
  - apply raises_only_raise. auto.
  - apply raises_only_bind.
    + intros s e. unfold try_except.
      destruct (open_dir_outcome fs cur_inode s) as [Hio|[directory Hdir]];
        destruct (open_dir fs cur_inode s) as [[o s1] t1]; simpl in *; by subst o.
    + intros [e|directory].
      * apply raises_only_bind; [apply raises_only_emit|]. intros _.
        destruct retry; [apply raises_only_ret|].
        apply raises_only_bind; [apply raises_only_emit|auto].
      * apply raises_only_bind; [|intros; by apply raises_only_for_each].
        apply raises_only_for_loop. intros f [name_str directories].
        unfold ParseImageDir_entry.
        destruct (read_entry f name_str) as [|[nm|]|nm inode ty meta].
        -- apply raises_only_ret.
        -- apply raises_only_bind; [apply raises_only_emit|].
           intros; apply raises_only_ret.
        -- apply raises_only_raise. auto.
        -- repeat case_match; try apply raises_only_ret.
           apply raises_only_bind; [|intros; apply raises_only_ret].
           unfold queue_file. intros s e. destruct (_vss self); [|done].
           unfold_M. simpl. destruct (hashlist s); [|intros [= <-]; by left].
           by destruct (bool_decide (CalculateNTFSTimeHash meta ∈ _)).
Qed.

(** ** The module as written: [vss_numbers] is not bound *)

Lemma queued_app t1 t2 : queued (t1 ++ t2) = queued t1 ++ queued t2.
Proof. apply omap_app. Qed.

Lemma closes_app t1 t2 : closes (t1 ++ t2) = closes t1 ++ closes t2.
Proof. apply omap_app. Qed.

(** A loop whose turns begin by reading [vss_numbers] ends at its first
    turn. *)
Lemma store_loop_unbound `{Runtime} (stores : list Z) (turn : Z → M unit) s :
  global_vss_numbers = None →
  for_each stores (λ store_nr, load_vss_numbers;; turn store_nr) s
  = (match stores with
     | [] => Return tt
     | _ :: _ => Raise (NameError "vss_numbers")
     end, s, []).
Proof.
  intros Hnone. destruct stores as [|nr stores]; [done|]. cbn [for_each].
  erewrite run_bind_Raise; [done|].
  erewrite run_bind_Raise; [done|].
  unfold load_vss_numbers. by rewrite Hnone.
Qed.

(** SimpleImageCollector.Collect, in full: the main volume, and then a store
    loop that opens no store. *)
Lemma SimpleImageCollector_Collect_unbound `{Runtime} fuel self s :
  global_vss_numbers = None →
  let offset := py_or (_offset_bytes self) (_offset self * SECTOR_SIZE) in
  let started :=
    if _vss self then {| hashlist := Some ∅; io_faults := io_faults s |} else s in
  ∃ selected,
    (GetVssStores self offset s).1.1 = Return selected ∧
    match _fscache self (_image self) offset None with
    | None =>
        SimpleImageCollector_Collect fuel self s
        = (Return tt, started,
           [EvLog DEBUG "Collecting from an image file [%s]";
            EvOpen (_image self) offset None;
            EvLog ERROR "Unable to read image [no collection] - %s."])
    | Some fs =>
        ∃ o s1 t_walk t_rest,
          ParseImageDir fuel self fs (fs_root_inum fs) os_path_sep false started
          = (o, s1, t_walk) ∧
          SimpleImageCollector_Collect fuel self s
          = (match o with
             | Return _ =>
                 match selected with
                 | [] => Return tt
                 | _ :: _ => Raise (NameError "vss_numbers")
                 end
             | _ => o
             end, s1,
             EvLog DEBUG "Collecting from an image file [%s]"
               :: EvOpen (_image self) offset None :: t_walk ++ t_rest) ∧
          (∀ e, o = Raise e →
             e = AttributeError ∨ e = UnboundLocalError "name_str" ∨
             e = RuntimeError) ∧
          stores_opened t_walk = [] ∧ closes t_walk = [] ∧
          queued t_rest = [] ∧ stores_opened t_rest = [] ∧ closes t_rest = []
    end.
Proof.
  intros Hnone offset started.
  destruct (GetVssStores_run self offset s) as (selected & Hg & Hsel).
  exists selected. split; [done|].
  unfold SimpleImageCollector_Collect. fold offset.
  erewrite run_bind_Return by reflexivity. cbv beta.
  assert (Hreset :
    (if _vss self
     then s0 ← get_state;
          put_state {| hashlist := Some ∅; io_faults := io_faults s0 |}
     else mret tt) s = (Return tt, started, []))
    by (subst started; by destruct (_vss self)).
  erewrite run_bind_Return by exact Hreset. cbv beta.
  destruct (_fscache self (_image self) offset None) as [fs|] eqn:Hopen.
  - destruct (ParseImageDir fuel self fs (fs_root_inum fs) os_path_sep false started)
      as [[o s1] t_walk] eqn:Hwalk.
    destruct (ParseImageDir_walk_only _ _ _ _ _ _ _ _ _ _ Hwalk) as (Hwo & Hwc & _).
    pose proof (ParseImageDir_raises fuel self fs (fs_root_inum fs) os_path_sep
                  false started) as Hraises.
    rewrite Hwalk in Hraises. simpl in Hraises.
    destruct o as [[]|e|].
    + erewrite run_bind_Return; cycle 1.
      { unfold try_except, fscache_Open. unfold_M. unfold_M. rewrite Hopen.
        simpl. rewrite Hwalk. reflexivity. }
      cbv beta iota.
      assert (Hif : (if _vss self then logging INFO "Collecting from VSS."
                     else mret tt) s1
                    = (Return tt, s1,
                       if _vss self then [EvLog INFO "Collecting from VSS."] else []))
        by (by destruct (_vss self)).
      erewrite run_bind_Return by exact Hif. cbv beta.
      erewrite run_bind_Return by apply Hg. cbv beta.
      destruct selected as [|nr selected].
      * erewrite run_bind_Return; cycle 1.
        { by apply (store_loop_unbound []
            (λ store_nr,
               logging INFO "Collecting from VSS store number: %d/%d";;
               CollectFromVss fuel self (_image self) store_nr offset)). }
        cbv beta. unfold_M. cbn [fst snd].
        eexists _, _, _, _. split; [reflexivity|]. split; [reflexivity|].
        split; [done|]. split; [done|]. split; [done|].
        by destruct (_vss self).
      * erewrite run_bind_Raise; cycle 1.
        { by apply (store_loop_unbound (nr :: selected)
            (λ store_nr,
               logging INFO "Collecting from VSS store number: %d/%d";;
               CollectFromVss fuel self (_image self) store_nr offset)). }
        cbn [fst snd].
        eexists _, _, _, _. split; [reflexivity|]. split; [reflexivity|].
        split; [done|]. split; [done|]. split; [done|].
        by destruct (_vss self).
    + erewrite run_bind_Raise; cycle 1.
      { unfold try_except, fscache_Open. unfold_M. unfold_M. rewrite Hopen.
        simpl. rewrite Hwalk.
        destruct (Hraises e eq_refl) as [->|[->| ->]]; reflexivity. }
      exists (Raise e), s1, t_walk, []. rewrite app_nil_r.
      split; [done|]. split; [done|]. split; [|done].
      intros e' [= <-]. by apply Hraises.
    + erewrite run_bind_Diverge; cycle 1.
      { unfold try_except, fscache_Open. unfold_M. unfold_M. rewrite Hopen.
        simpl. rewrite Hwalk. reflexivity. }
      exists Diverge, s1, t_walk, []. rewrite app_nil_r.
      split; [done|]. split; [done|]. split; [|done]. by intros e' [=].
  - erewrite run_bind_Return; cycle 1.
    { unfold try_except, fscache_Open. unfold_M. unfold_M. rewrite Hopen.
      reflexivity. }
    cbv beta iota. reflexivity.
Qed.

(** TargetedImageCollector.Collect, in full: the path specs of the main
    volume, and then a store loop that filters no store. *)
Lemma TargetedImageCollector_Collect_unbound `{Runtime} fuel self file_filter s :
  global_vss_numbers = None →
  let offset := py_or (_offset_bytes self) (_offset self * SECTOR_SIZE) in
  ∃ selected t_rest,
    (GetVssStores self offset s).1.1 = Return selected ∧
    TargetedImageCollector_Collect fuel
      {| super := self; _file_filter := file_filter |} s
    = (match selected with
       | [] => Return tt
       | _ :: _ => Raise (NameError "vss_numbers")
       end, s,
       EvGetPathSpecs (TSKFileCollector (_image self) offset) file_filter
         :: ((λ str, EvQueue (PathSpecString str))
               <$> GetPathSpecs (TSKFileCollector (_image self) offset) file_filter)
         ++ t_rest) ∧
    queued t_rest = [] ∧ stores_filtered t_rest = [] ∧ closes t_rest = [].
Proof.
  intros Hnone offset.
  destruct (GetVssStores_run self offset s) as (selected & Hg & Hsel).
  unfold TargetedImageCollector_Collect, try_finally. cbn [super _file_filter].
  fold offset.
  erewrite run_bind_Return by apply queue_pathspecs_run. cbv beta.
  destruct (_vss self) eqn:Hvss.
  - erewrite run_bind_Return by reflexivity. cbv beta.
    erewrite run_bind_Return by apply Hg. cbv beta.
    rewrite (store_loop_unbound selected
      (λ store_nr,
         logging INFO "Collecting from VSS store number: %d/%d";;
         queue_pathspecs (VSSFileCollector (_image self) store_nr offset)
           file_filter)) by done.
    exists selected.
    destruct selected as [|nr selected]; unfold_M; unfold_M; cbn [fst snd app];
      eexists; (split; [done|]);
      (split; [rewrite <- app_assoc; reflexivity|]); done.
  - pose proof (Hg s) as Hgs. unfold GetVssStores in Hgs. rewrite Hvss in Hgs.
    injection Hgs as <-. exists []. unfold_M. unfold_M. cbn [fst snd app].
    eexists. split; [done|]. split; [rewrite app_nil_r; reflexivity|]. done.
Qed.

(** ** The undefined name of the store loop *)

(** C2, as the code has it: in collector.py as written, a collector that
    parses VSS and whose GetVssStores returns at least one store never opens
    a store, and queues only what the walk of the main volume queues. Its
    Collect raises NameError for [vss_numbers], at the first turn of the store
    loop, exactly when the loop is reached: when the main volume opened and
    its walk returned. Then Run ends with the same NameError, the queue not
    closed. (A main volume that does not open makes Collect return before the
    loop, and an exception of the walk leaves Collect in place of the
    NameError.) The store loop of TargetedImageCollector raises the same
    NameError in every such run, after the path specs of the main volume and
    before any store is filtered. *)
Theorem vss_numbers_is_undefined (md5 : string → string) (count : string → Z → Z)
    (specs : preprocess_collector → string → list string) (fuel : nat)
    (self : SimpleImageCollector) (file_filter : string) (s : State)
    (nr : Z) (stores : list Z) :
  let rt := collector_py md5 count specs in
  let offset := py_or (_offset_bytes self) (_offset self * SECTOR_SIZE) in
  let targeted := {| super := self; _file_filter := file_filter |} in
  let simple := SimpleImageCollector_Collect fuel self s in
  let main_walk :=
    match _fscache self (_image self) offset None with
    | Some fs =>
        (ParseImageDir fuel self fs (fs_root_inum fs) os_path_sep false
           {| hashlist := Some ∅; io_faults := io_faults s |}).2
    | None => []
    end in
  _vss self = true →
  (GetVssStores self offset s).1.1 = Return (nr :: stores) →
  (stores_opened simple.2 = [] ∧ queued simple.2 = queued main_walk) ∧
  (simple.1.1 = Raise (NameError "vss_numbers") ↔
   ∃ fs s1 t_walk,
     _fscache self (_image self) offset None = Some fs ∧
     ParseImageDir fuel self fs (fs_root_inum fs) os_path_sep false
       {| hashlist := Some ∅; io_faults := io_faults s |}
     = (Return tt, s1, t_walk)) ∧
  (∀ fs s1 t_walk,
     _fscache self (_image self) offset None = Some fs →
     ParseImageDir fuel self fs (fs_root_inum fs) os_path_sep false
       {| hashlist := Some ∅; io_faults := io_faults s |}
     = (Return tt, s1, t_walk) →
     ∃ t,
       SimpleImageCollector_Collect fuel self s
       = (Raise (NameError "vss_numbers"), s1, t) ∧
       Run fuel self s = (Raise (NameError "vss_numbers"), s1, t) ∧
       stores_opened t = [] ∧ queued t = queued t_walk ∧ closes t = []) ∧
  (∃ t,
     TargetedImageCollector_Collect fuel targeted s
     = (Raise (NameError "vss_numbers"), s, t) ∧
     Run fuel targeted s = (Raise (NameError "vss_numbers"), s, t) ∧
     queued t
     = PathSpecString <$> specs (TSKFileCollector (_image self) offset) file_filter ∧
     closes t = []).
Proof.
  intros rt offset targeted simple main_walk Hvss Hstores.
  destruct (SimpleImageCollector_Collect_unbound (H := rt) fuel self s eq_refl)
    as (selected & Hsel & Hsimple).
  fold offset in Hsel, Hsimple. rewrite Hsel in Hstores.
  injection Hstores as ->. rewrite Hvss in Hsimple.
  destruct (TargetedImageCollector_Collect_unbound (H := rt) fuel self
              file_filter s eq_refl)
    as (selected' & t_rest' & Hsel' & Htargeted & Hq' & _ & Hc').
  fold offset in Hsel', Htargeted. rewrite Hsel in Hsel'.
  injection Hsel' as <-. fold targeted in Htargeted.
  subst simple main_walk.
  destruct (_fscache self (_image self) offset None) as [fs|] eqn:Hopen.
  - destruct Hsimple
      as (o & s1 & t_walk & t_rest & Hwalk & Hcollect & Hraises & Hwo & Hwc
          & Hq & Ho & Hc).
    rewrite Hcollect, Hwalk. cbn [fst snd].
    assert (Hopened :
      stores_opened
        (EvLog DEBUG "Collecting from an image file [%s]"
           :: EvOpen (_image self) offset None :: t_walk ++ t_rest) = []).
    { change (stores_opened (t_walk ++ t_rest) = []).
      unfold stores_opened in *. by rewrite omap_app, Hwo, Ho. }
    assert (Hqueued :
      queued
        (EvLog DEBUG "Collecting from an image file [%s]"
           :: EvOpen (_image self) offset None :: t_walk ++ t_rest)
      = queued t_walk).
    { change (queued (t_walk ++ t_rest) = queued t_walk).
      by rewrite queued_app, Hq, app_nil_r. }
    assert (Hclosed :
      closes
        (EvLog DEBUG "Collecting from an image file [%s]"
           :: EvOpen (_image self) offset None :: t_walk ++ t_rest) = []).
    { change (closes (t_walk ++ t_rest) = []).
      by rewrite closes_app, Hwc, Hc. }
    split; [done|]. split; [split|split].
    + destruct o as [[]|e|]; [by eexists _, _, _| |done].
      intros [= ->]. by destruct (Hraises _ eq_refl) as [?|[?|?]].
    + intros (fs' & s1' & t_walk' & [= <-] & Hw). rewrite Hwalk in Hw.
      by injection Hw as -> _ _.
    + intros fs' s1' t_walk' [= <-] Hw. rewrite Hwalk in Hw.
      injection Hw as -> <- <-. eexists.
      split; [reflexivity|]. split; [|done].
      unfold Run, Collect, SimpleImageCollector_Collector.
      by erewrite run_bind_Raise.
    + eexists. split; [exact Htargeted|]. split.
      * unfold Run, Collect, TargetedImageCollector_Collector.
        by erewrite run_bind_Raise.
      * split.
        -- change (EvGetPathSpecs ?c ?f :: ?l) with ([EvGetPathSpecs c f] ++ l).
           rewrite !queued_app, queued_pathspecs, Hq'. cbn.
           by rewrite app_nil_r.
        -- change (EvGetPathSpecs ?c ?f :: ?l) with ([EvGetPathSpecs c f] ++ l).
           by rewrite !closes_app, closes_pathspecs, Hc'.
  - rewrite Hsimple. cbn [fst snd]. split; [done|]. split; [split|split].
    + done.
    + by intros (fs' & s1' & t_walk' & [=] & _).
    + by intros fs' s1' t_walk' [=].
    + eexists. split; [exact Htargeted|]. split.
      * unfold Run, Collect, TargetedImageCollector_Collector.
        by erewrite run_bind_Raise.
      * split.
        -- change (EvGetPathSpecs ?c ?f :: ?l) with ([EvGetPathSpecs c f] ++ l).
           rewrite !queued_app, queued_pathspecs, Hq'. cbn.
           by rewrite app_nil_r.
        -- change (EvGetPathSpecs ?c ?f :: ?l) with ([EvGetPathSpecs c f] ++ l).
           by rewrite !closes_app, closes_pathspecs, Hc'.
Qed.

(** C2 on the sample image: three stores, VSS parsing on. *)
Lemma vss_numbers_is_undefined_witness :
  ∃ s1 t,
    Run (H := @SimpleImageCollector_Collector sample_runtime) 5
      (sample_collector true None) fresh_state
    = (Raise (NameError "vss_numbers"), s1, t) ∧
    stores_opened t = [] ∧ closes t = [].
Proof.
  destruct (vss_numbers_is_undefined (λ s, s) (λ _ _, 3) (λ _ _, ["pathspec"]) 5
              (sample_collector true None) "filter.txt" fresh_state 0 [1; 2]
              eq_refl eq_refl) as (_ & _ & Hsimple & _).
  assert (Hwalk : ∃ s1 t_walk,
    ParseImageDir (H := sample_runtime) 5 (sample_collector true None)
      (sample_volume (-1)) 2 "/" false collecting_state
    = (Return tt, s1, t_walk)) by (vm_compute; eauto).
  destruct Hwalk as (s1 & t_walk & Hwalk).
  destruct (Hsimple (sample_volume (-1)) s1 t_walk eq_refl Hwalk)
    as (t & _ & Hrun & Hopened & _ & Hcloses).
  by exists s1, t.
Defined.

(** C2 fails for a run that does not reach the store loop. A collector that
    parses VSS on an image with three stores whose main volume does not open:
    GetVssStores returns the three stores, but Collect returns, and Run closes
    the queue. And on the damaged volume the UnboundLocalError of the entry
    handler leaves Collect, not the NameError. *)
Lemma store_loop_is_not_always_reached :
  (GetVssStores (H := sample_runtime) (unreadable_collector true) 32256
     fresh_state).1.1 = Return [0; 1; 2] ∧
  Run (H := @SimpleImageCollector_Collector sample_runtime) 5
    (unreadable_collector true) fresh_state
  = (Return tt, collecting_state,
     [EvLog DEBUG "Collecting from an image file [%s]";
      EvOpen "image.dd" 32256 None;
      EvLog ERROR "Unable to read image [no collection] - %s.";
      EvClose]) ∧
  ¬ store_loop_always_raises (H := sample_runtime) 5 (unreadable_collector true)
      fresh_state ∧
  (GetVssStores (H := sample_runtime) damaged_vss_collector 0
     fresh_state).1.1 = Return [0; 1; 2] ∧
  (SimpleImageCollector_Collect (H := sample_runtime) 5 damaged_vss_collector
     fresh_state).1.1 = Raise (UnboundLocalError "name_str") ∧
  ¬ store_loop_always_raises (H := sample_runtime) 5 damaged_vss_collector
      fresh_state.
Proof.
  split; [by vm_compute|]. split; [by vm_compute|]. split.
  { intros Hclaim.
    destruct (Hclaim eq_refl 0 [1; 2] ltac:(by vm_compute)) as [Hraise _].
    vm_compute in Hraise. discriminate Hraise. }
  split; [by vm_compute|]. split; [by vm_compute|].
  intros Hclaim.
  destruct (Hclaim eq_refl 0 [1; 2] ltac:(by vm_compute)) as [Hraise _].
  vm_compute in Hraise. discriminate Hraise.
Qed.
(** ** The order of the walks *)

Lemma seqZ_ascending (m n : Z) : StronglySorted Z.lt (seqZ m n).
Proof.
  remember (Z.to_nat n) as k eqn:Hk. revert m n Hk.
  induction k as [|k IH]; intros m n Hk.
  - rewrite seqZ_nil by lia. constructor.
  - rewrite seqZ_cons by lia. constructor.
    + apply IH. lia.
    + apply Forall_forall. intros x Hx. apply elem_of_seqZ in Hx. lia.
Qed.

(** The stores GetVssStores selects keep the order of an explicit list, and
    ascend when there is none. *)
Lemma GetVssStores_order `{Runtime} self offset s stores :
  (GetVssStores self offset s).1.1 = Return stores →
  match _vss_stores self with
  | Some (nr0 :: rest) => stores `sublist_of` nr0 :: rest
  | _ => StronglySorted Z.lt stores
  end.
Proof.
  unfold GetVssStores. destruct (_vss self); cbn [negb].
  - unfold_M. destruct (_vss_stores self) as [[|nr0 rest]|]; intros [= <-].
    + apply seqZ_ascending.
    + rewrite GetVssStores_loop.
      destruct ((0 <? nr0) && (nr0 <=? _)); simpl.
      * apply sublist_skip, sublist_filter.
      * apply sublist_cons, sublist_filter.
    + apply seqZ_ascending.
  - intros [= <-].
    destruct (_vss_stores self) as [[|nr0 rest]|];
      [constructor|apply sublist_nil_l|constructor].
Qed.



(** The run that could show a store out of order: with three stores and the
    explicit list 3, 1, GetVssStores returns store 3 before store 1, and
    Collect ends on the NameError with no store opened. *)
Example explicit_list_reaches_no_store :
  (GetVssStores (H := sample_runtime) (sample_collector true (Some [3; 1])) 0
     fresh_state).1.1 = Return [3; 1] ∧
  (SimpleImageCollector_Collect (H := sample_runtime) 5
     (sample_collector true (Some [3; 1])) fresh_state).1.1
  = Raise (NameError "vss_numbers") ∧
  stores_opened
    (SimpleImageCollector_Collect (H := sample_runtime) 5
       (sample_collector true (Some [3; 1])) fresh_state).2 = [] ∧
  queued_paths
    (SimpleImageCollector_Collect (H := sample_runtime) 5
       (sample_collector true (Some [3; 1])) fresh_state).2
  = ["/a.txt"; "/b/c.txt"].
Proof. repeat split; by vm_compute. Qed.

(** * Further properties *)

(** ** SimpleFileCollector and TargetedFileSystemCollector *)

Lemma for_each_app {A} (l1 l2 : list A) (body : A → M unit) s :
  for_each (l1 ++ l2) body s = (for_each l1 body;; for_each l2 body) s.
Proof.
  revert s. induction l1 as [|x l1 IH]; intros s; simpl.
  - unfold_M. by destruct (for_each l2 body s) as [[??]?].
  - unfold_M. destruct (body x s) as [[[[]|e|] s1] t1]; [|done..].
    rewrite IH. unfold_M.
    destruct (for_each l1 body s1) as [[[[]|e|] s2] t2]; [|done..].
    destruct (for_each l2 body s2) as [[o3 s3] t3]. by rewrite app_assoc.
Qed.

Lemma queued_paths_app t1 t2 :
  queued_paths (t1 ++ t2) = queued_paths t1 ++ queued_paths t2.
Proof. unfold queued_paths. by rewrite queued_app, omap_app. Qed.

(** One file name: queued when its path is no link and is a file. *)
Lemma SimpleFileCollector_file_run `{OperatingSystem} root filename s :
  ∃ t,
    SimpleFileCollector_file root filename s = (Return tt, s, t) ∧
    closes t = [] ∧
    queued_paths t
    = filter (λ path, os_path_islink path = false ∧ os_path_isfile path = true)
        [os_path_join root filename] ∧
    Forall (λ item, ∃ p, item = ProtoString p ∧ type p = "OS") (queued t).
Proof.
  unfold SimpleFileCollector_file, try_except, ProcessFile. unfold_M. unfold_M.
  destruct (os_path_islink (os_path_join root filename)) eqn:Hlink; simpl.
  { eexists. split; [done|]. split; [done|].
    rewrite filter_cons_False by (rewrite Hlink; by intros [? _]). by split. }
  destruct (os_path_isfile (os_path_join root filename)) eqn:Hfile; simpl.
  - eexists. split; [done|]. split; [done|].
    rewrite filter_cons_True by by rewrite Hlink, Hfile. split; [done|].
    repeat constructor. by eexists.
  - eexists. split; [done|]. split; [done|].
    rewrite filter_cons_False by (rewrite Hfile; by intros [_ ?]). by split.
Qed.

Lemma SimpleFileCollector_files_run `{OperatingSystem} root files s :
  ∃ t,
    for_each files (SimpleFileCollector_file root) s = (Return tt, s, t) ∧
    closes t = [] ∧
    queued_paths t
    = filter (λ path, os_path_islink path = false ∧ os_path_isfile path = true)
        (os_path_join root <$> files) ∧
    Forall (λ item, ∃ p, item = ProtoString p ∧ type p = "OS") (queued t).
Proof.
  induction files as [|filename files (t2 & Hrun2 & Hc2 & Hp2 & Ht2)]; simpl.
  - by exists [].
  - destruct (SimpleFileCollector_file_run root filename s)
      as (t1 & Hrun1 & Hc1 & Hp1 & Ht1).
    exists (t1 ++ t2). erewrite run_bind_Return by exact Hrun1.
    rewrite Hrun2. simpl. split; [done|].
    rewrite closes_app, queued_paths_app, queued_app, Hc1, Hc2, Hp1, Hp2.
    split; [done|]. split; [|by apply Forall_app].
    symmetry. apply (filter_app _ [_]).
Qed.

(** SimpleFileCollector, lines 90 to 118. Collect always returns, and leaves
    the state as it was. For a path that is a file it queues that path; for a
    directory it queues, in the order of os.walk, the path of every listed file
    name that is a file and no symbolic link; for anything else it queues
    nothing. Every path spec has the type OS, and Run closes the queue once,
    after the last of them. *)
Theorem SimpleFileCollector_Run `{OperatingSystem} (fuel : nat)
    (self : SimpleFileCollector) (s : State) :
  ∃ t,
    SimpleFileCollector_Collect self s = (Return tt, s, t) ∧
    Run fuel self s = (Return tt, s, t ++ [EvClose]) ∧
    closes t = [] ∧
    queued_paths t
    = (if os_path_isfile (_dir self) then [_dir self]
       else if os_path_isdir (_dir self) then files_to_collect (_dir self)
       else []) ∧
    Forall (λ item, ∃ p, item = ProtoString p ∧ type p = "OS") (queued t) ∧
    Forall (λ path, path = _dir self ∨
                    os_path_islink path = false ∧ os_path_isfile path = true)
      (queued_paths t).
Proof.
  assert (Hcollect : ∃ t,
    SimpleFileCollector_Collect self s = (Return tt, s, t) ∧
    closes t = [] ∧
    queued_paths t
    = (if os_path_isfile (_dir self) then [_dir self]
       else if os_path_isdir (_dir self) then files_to_collect (_dir self)
       else []) ∧
    Forall (λ item, ∃ p, item = ProtoString p ∧ type p = "OS") (queued t)).
  { unfold SimpleFileCollector_Collect, files_to_collect.
    destruct (os_path_isfile (_dir self)).
    { eexists. split; [reflexivity|]. split; [done|]. split; [done|].
      repeat constructor. by eexists. }
    destruct (os_path_isdir (_dir self)); simpl; [|by eexists].
    induction (os_walk (_dir self)) as [|[[root dirs] files] walk
      (t2 & Hrun2 & Hc2 & Hp2 & Ht2)]; simpl.
    - by exists [].
    - destruct (SimpleFileCollector_files_run root files s)
        as (t1 & Hrun1 & Hc1 & Hp1 & Ht1).
      exists (t1 ++ t2). erewrite run_bind_Return by exact Hrun1.
      rewrite Hrun2. simpl. split; [done|].
      rewrite closes_app, queued_paths_app, queued_app, Hc1, Hc2, Hp1, Hp2.
      split; [done|]. split; [|by apply Forall_app].
      by rewrite filter_app. }
  destruct Hcollect as (t & Hrun & Hc & Hp & Ht). exists t.
  split; [done|]. split.
  { unfold Run, Collect, SimpleFileCollector_Collector.
    by erewrite run_bind_Return by exact Hrun. }
  split; [done|]. split; [done|]. split; [done|].
  rewrite Hp. destruct (os_path_isfile (_dir self)).
  { repeat constructor. }
  destruct (os_path_isdir (_dir self)); [|constructor].
  apply Forall_forall. intros path Hin. right.
  unfold files_to_collect in Hin. by apply list_elem_of_filter in Hin as [Hin _].
Qed.

(** TargetedFileSystemCollector, lines 347 to 351: Collect queues the path
    specs of the filter as they are and in their order, and Run closes the
    queue once, after the last of them. *)
Theorem TargetedFileSystemCollector_Run `{FileSystemFilter} (fuel : nat)
    (self : TargetedFileSystemCollector) (s : State) :
  Run fuel self s
  = (Return tt, s,
     ((λ str, EvQueue (PathSpecString str))
        <$> file_system_pathspecs (_dir (mount_point self))
              (targeted_file_filter self))
     ++ [EvClose]) ∧
  queued (Run fuel self s).2
  = PathSpecString
      <$> file_system_pathspecs (_dir (mount_point self)) (targeted_file_filter self).
Proof.
  assert (Hcollect : ∀ l,
    for_each l (λ str, Queue (PathSpecString str)) s
    = (Return tt, s, (λ str, EvQueue (PathSpecString str)) <$> l)).
  { induction l as [|str l IH]; [done|]. simpl. unfold_M. simpl in *.
    destruct (for_each l _ s) as [[o s'] t]. by injection IH as -> -> ->. }
  assert (Hrun : Run fuel self s
    = (Return tt, s,
       ((λ str, EvQueue (PathSpecString str))
          <$> file_system_pathspecs (_dir (mount_point self))
                (targeted_file_filter self))
       ++ [EvClose])).
  { unfold Run, Collect, TargetedFileSystemCollector_Collector,
      TargetedFileSystemCollector_Collect.
    by erewrite run_bind_Return by apply Hcollect. }
  split; [exact Hrun|]. rewrite Hrun. simpl.
  rewrite queued_app, queued_pathspecs. simpl. by rewrite app_nil_r.
Qed.

(** ** The with statement *)

(** __enter__ and __exit__, lines 68 to 74. Inside [with collector:] the queue
    is closed when the body ends, whether it returns or raises, and the
    exception of the body goes on. So [with collector: collector.Collect()]
    closes the queue of an image collector exactly once in both cases, while
    [with collector: collector.Run()] closes it twice when Collect returns
    (once in Run, once in __exit__) and once when Collect raises. *)
Theorem with_collector_closes :
  (∀ T (C : Collector T) fuel (self : T) s,
     (with_collector (Collect fuel self) s).1.1 = (Collect fuel self s).1.1 ∧
     closes (with_collector (Collect fuel self) s).2
     = closes (Collect fuel self s).2
       ++ match (Collect fuel self s).1.1 with Diverge => [] | _ => [tt] end ∧
     closes (with_collector (Run fuel self) s).2
     = closes (Collect fuel self s).2
       ++ match (Collect fuel self s).1.1 with
          | Return _ => [tt; tt]
          | Raise _ => [tt]
          | Diverge => []
          end) ∧
  (∀ (rt : Runtime) fuel (self : SimpleImageCollector) s,
     closes (with_collector (Collect fuel self) s).2
     = match (Collect fuel self s).1.1 with Diverge => [] | _ => [tt] end ∧
     closes (with_collector (Run fuel self) s).2
     = match (Collect fuel self s).1.1 with
       | Return _ => [tt; tt]
       | Raise _ => [tt]
       | Diverge => []
       end).
Proof.
  assert (Hgen : ∀ T (C : Collector T) fuel (self : T) s,
     (with_collector (Collect fuel self) s).1.1 = (Collect fuel self s).1.1 ∧
     closes (with_collector (Collect fuel self) s).2
     = closes (Collect fuel self s).2
       ++ match (Collect fuel self s).1.1 with Diverge => [] | _ => [tt] end ∧
     closes (with_collector (Run fuel self) s).2
     = closes (Collect fuel self s).2
       ++ match (Collect fuel self s).1.1 with
          | Return _ => [tt; tt]
          | Raise _ => [tt]
          | Diverge => []
          end).
  { intros T C fuel self s. unfold with_collector, try_finally, Run. unfold_M.
    destruct (Collect fuel self s) as [[[[]|e|] s1] t1]; simpl;
      rewrite ?closes_app, ?app_nil_r; simpl; by rewrite <- ?app_assoc. }
  split; [exact Hgen|]. intros rt fuel self s.
  destruct (Hgen _ _ fuel self s) as (_ & Hcollect & Hrun).
  pose proof (SimpleImageCollector_Collect_no_Close fuel self s) as Hnone.
  unfold Collect, SimpleImageCollector_Collector in *.
  by rewrite Hcollect, Hrun, Hnone.
Qed.

(** ** Volumes and stores that do not open *)

(** Lines 175 to 181. When the main volume does not open, Collect logs the
    error and returns: nothing is queued, the state is what Collect started
    from (with the hash list created when VSS is parsed), no store is counted
    or opened even when VSS is parsed, and Run closes the queue. *)
Theorem Collect_main_volume_unreadable `{Runtime} (fuel : nat)
    (self : SimpleImageCollector) (s : State) :
  _fscache self (_image self)
    (py_or (_offset_bytes self) (_offset self * SECTOR_SIZE)) None = None →
  let started :=
    if _vss self then {| hashlist := Some ∅; io_faults := io_faults s |} else s in
  let t :=
    [EvLog DEBUG "Collecting from an image file [%s]";
     EvOpen (_image self)
       (py_or (_offset_bytes self) (_offset self * SECTOR_SIZE)) None;
     EvLog ERROR "Unable to read image [no collection] - %s."] in
  SimpleImageCollector_Collect fuel self s = (Return tt, started, t) ∧
  Run fuel self s = (Return tt, started, t ++ [EvClose]) ∧
  queued t = [] ∧ stores_opened t = [].
Proof.
  intros Hopen started t.
  assert (Hcollect : SimpleImageCollector_Collect fuel self s
                     = (Return tt, started, t)).
  { unfold SimpleImageCollector_Collect, fscache_Open, try_except.
    unfold_M. unfold_M. rewrite Hopen. subst started.
    by destruct (_vss self). }
  split; [done|]. split; [|done].
  unfold Run, Collect, SimpleImageCollector_Collector.
  by erewrite run_bind_Return by exact Hcollect.
Qed.

(** Lines 204 to 210. A store that does not open is logged and passed over:
    CollectFromVss returns, with nothing queued and the state as it was, so
    the store loop goes on with the next store. Whatever the store,
    UnableToOpenFilesystem never leaves CollectFromVss. *)
Theorem CollectFromVss_store_unreadable `{Runtime} (fuel : nat)
    (self : SimpleImageCollector) (image_path : string) (store_nr offset : Z)
    (s : State) :
  (_fscache self image_path offset (Some store_nr) = None →
   CollectFromVss fuel self image_path store_nr offset s
   = (Return tt, s,
      [EvLog DEBUG "Collecting from VSS store %d";
       EvOpen image_path offset (Some store_nr);
       EvLog ERROR "Unable to read filesystem: %s.";
       EvLog DEBUG "Collection from VSS store: %d COMPLETED."])) ∧
  (CollectFromVss fuel self image_path store_nr offset s).1.1
    ≠ Raise UnableToOpenFilesystem.
Proof.
  split.
  - intros Hopen. unfold CollectFromVss, fscache_Open, try_except.
    unfold_M. unfold_M. by rewrite Hopen.
  - unfold CollectFromVss, fscache_Open, try_except. unfold_M. unfold_M. simpl.
    destruct (_fscache self image_path offset (Some store_nr)) as [fs|];
      simpl; [|done].
    pose proof (ParseImageDir_raises fuel self fs (fs_root_inum fs) "/" false s)
      as Hraises.
    destruct (ParseImageDir fuel self fs (fs_root_inum fs) "/" false s)
      as [[[[]|e|] s1] t1]; simpl in *; [done| |done].
    destruct (Hraises e eq_refl) as [->|[->| ->]]; simpl; done.
Qed.

(** A collector at sector 63 whose image does not open, VSS parsing on. *)
Lemma Collect_main_volume_unreadable_witness :
  Run (H := @SimpleImageCollector_Collector sample_runtime) 5
    (unreadable_collector true) fresh_state
  = (Return tt, collecting_state,
     [EvLog DEBUG "Collecting from an image file [%s]";
      EvOpen "image.dd" 32256 None;
      EvLog ERROR "Unable to read image [no collection] - %s.";
      EvClose]).
Proof.
  destruct (Collect_main_volume_unreadable (H := sample_runtime) 5
              (unreadable_collector true) fresh_state eq_refl)
    as (_ & Hrun & _).
  exact Hrun.
Defined.

(** A store of a collector whose image does not open. *)
Lemma CollectFromVss_store_unreadable_witness :
  CollectFromVss (H := sample_runtime) 5 (unreadable_collector true) "image.dd"
    1 0 collecting_state
  = (Return tt, collecting_state,
     [EvLog DEBUG "Collecting from VSS store %d";
      EvOpen "image.dd" 0 (Some 1);
      EvLog ERROR "Unable to read filesystem: %s.";
      EvLog DEBUG "Collection from VSS store: %d COMPLETED."]).
Proof.
  apply (CollectFromVss_store_unreadable (H := sample_runtime) 5
           (unreadable_collector true) "image.dd" 1 0 collecting_state).
  reflexivity.
Defined.

(** ** Collect when no store is selected *)

(** Lines 166 to 191. When GetVssStores selects no store (VSS parsing off, or
    on for a volume without stores, or with an explicit list of which none is
    in range), Collect is the walk of the main volume: it ends as the walk
    ends and in the state the walk leaves, it queues what the walk queues, and
    opens no store. In particular the store loop does not reach its undefined
    name, and Run closes the queue when the walk returns. *)
Theorem Collect_without_stores `{Runtime} (fuel : nat)
    (self : SimpleImageCollector) (fs : CacheFileSystem) (s : State) :
  let offset := py_or (_offset_bytes self) (_offset self * SECTOR_SIZE) in
  let started :=
    if _vss self then {| hashlist := Some ∅; io_faults := io_faults s |} else s in
  let walk :=
    ParseImageDir fuel self fs (fs_root_inum fs) os_path_sep false started in
  let collect := SimpleImageCollector_Collect fuel self s in
  _fscache self (_image self) offset None = Some fs →
  (GetVssStores self offset s).1.1 = Return [] →
  collect.1.1 = walk.1.1 ∧ collect.1.2 = walk.1.2 ∧
  queued collect.2 = queued walk.2 ∧ stores_opened collect.2 = [] ∧
  closes (Run fuel self s).2
  = match walk.1.1 with Return _ => [tt] | _ => [] end.
Proof.
  intros offset started walk collect Hopen Hnone.
  destruct (GetVssStores_run self offset s) as (selected & Hg & Hsel).
  rewrite Hsel in Hnone. injection Hnone as ->. clear Hsel.
  assert (Hreset :
    (if _vss self
     then s0 ← get_state;
          put_state {| hashlist := Some ∅; io_faults := io_faults s0 |}
     else mret tt) s = (Return tt, started, []))
    by (subst started; by destruct (_vss self)).
  assert (Hif : ∀ s1,
    (if _vss self then logging INFO "Collecting from VSS." else mret tt) s1
    = (Return tt, s1, if _vss self then [EvLog INFO "Collecting from VSS."] else []))
    by (intros; by destruct (_vss self)).
  pose proof (ParseImageDir_raises fuel self fs (fs_root_inum fs) os_path_sep
                false started) as Hraises.
  destruct (ParseImageDir fuel self fs (fs_root_inum fs) os_path_sep false started)
    as [[o s1] t_walk] eqn:Hwalk.
  destruct (ParseImageDir_walk_only _ _ _ _ _ _ _ _ _ _ Hwalk) as (Hwo & Hwc & _).
  simpl in Hraises.
  assert (Hcollect : ∃ t_rest,
    collect = (o, s1,
               EvLog DEBUG "Collecting from an image file [%s]"
                 :: EvOpen (_image self) offset None :: t_walk ++ t_rest) ∧
    queued t_rest = [] ∧ stores_opened t_rest = [] ∧ closes t_rest = []).
  { subst collect. unfold SimpleImageCollector_Collect. fold offset.
    erewrite run_bind_Return by reflexivity. cbv beta.
    erewrite run_bind_Return by exact Hreset. cbv beta.
    destruct o as [[]|e|].
    - erewrite run_bind_Return; cycle 1.
      { unfold try_except, fscache_Open. unfold_M. unfold_M. rewrite Hopen.
        simpl. rewrite Hwalk. reflexivity. }
      cbv beta iota.
      erewrite run_bind_Return by apply Hif. cbv beta.
      erewrite run_bind_Return by apply Hg. cbv beta.
      eexists. split; [simpl; reflexivity|]. by destruct (_vss self).
    - erewrite run_bind_Raise; cycle 1.
      { unfold try_except, fscache_Open. unfold_M. unfold_M. rewrite Hopen.
        simpl. rewrite Hwalk.
        destruct (Hraises e eq_refl) as [->|[->| ->]]; reflexivity. }
      exists []. simpl. by rewrite app_nil_r.
    - erewrite run_bind_Diverge; cycle 1.
      { unfold try_except, fscache_Open. unfold_M. unfold_M. rewrite Hopen.
        simpl. rewrite Hwalk. reflexivity. }
      exists []. simpl. by rewrite app_nil_r. }
  destruct Hcollect as (t_rest & Hcollect & Hq & Hs & Hc).
  subst collect walk. rewrite Hcollect. simpl.
  split; [done|]. split; [done|].
  unfold stores_opened, queued in *. simpl.
  rewrite !omap_app, Hq, Hs, Hwo, !app_nil_r. split; [done|]. split; [done|].
  unfold Run, Collect, SimpleImageCollector_Collector.
  unfold_M. rewrite Hcollect.
  destruct o as [[]|e|]; simpl; unfold closes in *; simpl;
    by rewrite ?omap_app, ?Hwc, ?Hc.
Qed.

(** The sample image with VSS parsing off. *)
Lemma Collect_without_stores_witness :
  (SimpleImageCollector_Collect (H := sample_runtime) 5
     (sample_collector false None) fresh_state).1.1 = Return tt ∧
  queued_paths
    (SimpleImageCollector_Collect (H := sample_runtime) 5
       (sample_collector false None) fresh_state).2
  = ["/a.txt"; "/h"; "/b/c.txt"].
Proof.
  destruct (Collect_without_stores (H := sample_runtime) 5
              (sample_collector false None) (sample_volume (-1)) fresh_state
              eq_refl eq_refl) as (Ho & _ & Hq & _).
  split.
  - rewrite Ho. vm_compute. reflexivity.
  - unfold queued_paths. rewrite Hq. vm_compute. reflexivity.
Defined.

(** ** What a walk queues *)

Lemma keeps_bind_post {A B} R (Post : A → Prop) (m : M A) (k : A → M B) :
  hereditary R → keeps R m →
  (∀ s a s' t, m s = (Return a, s', t) → Post a) →
  (∀ a, Post a → keeps R (k a)) → keeps R (m ≫= k).
Proof.
  intros HR Hm Hpost Hk s o s' t. unfold keeps in *. unfold_M.
  destruct (m s) as [[[a|e|] s1] t1] eqn:Em; try (intros [= <- <- <-]; eauto).
  destruct (k a s1) as [[o2 s2] t2] eqn:Ek. intros [= <- <- <-].
  eapply hereditary_app; eauto.
Qed.

Lemma keeps_for_loop_in {A L} R (l : list A) (body : A → L → M L) locals :
  hereditary R →
  (∀ x loc, x ∈ l → keeps R (body x loc)) → keeps R (for_loop l body locals).
Proof.
  intros HR. revert locals. induction l as [|x l IH]; intros locals Hb; simpl.
  - by apply keeps_ret.
  - apply keeps_bind; [done|apply Hb; by left|].
    intros loc. apply IH. intros y loc' Hy. apply Hb. by right.
Qed.

Lemma open_dir_Return fs inode s directory s' t :
  open_dir fs inode s = (Return directory, s', t) →
  fs_dirs fs !! inode = Some directory.
Proof. unfold open_dir. repeat case_match; by intros [= <- <- <-]. Qed.

Lemma queued_from_hereditary fs :
  hereditary (on_trace (λ t, ∀ item, item ∈ queued t → queued_from fs item)).
Proof.
  apply on_trace_hereditary.
  - intros item Hin. by apply elem_of_nil in Hin.
  - intros t1 t2 H1 H2 item. rewrite queued_app, elem_of_app.
    intros [Hin|Hin]; auto.
Qed.

Lemma ParseImageDir_entry_queued_from `{Runtime} self fs path f locals :
  listed fs f →
  keeps (on_trace (λ t, ∀ item, item ∈ queued t → queued_from fs item))
    (ParseImageDir_entry self fs path f locals).
Proof.
  intros Hlisted. pose proof (queued_from_hereditary fs) as HR.
  assert (Hnil : ∀ item, item ∈ queued [] → queued_from fs item)
    by (intros item Hin; by apply elem_of_nil in Hin).
  destruct locals as [name_str directories]. unfold ParseImageDir_entry.
  destruct (read_entry f name_str) as [|[nm|]|nm inode ty meta] eqn:Hread.
  - by apply keeps_ret.
  - apply keeps_bind; [done|by apply keeps_emit|]. intros; by apply keeps_ret.
  - by apply keeps_raise.
  - case_bool_decide as Hskip; [by apply keeps_ret|].
    destruct (ty =? TSK_FS_META_TYPE_DIR); [by apply keeps_ret|].
    destruct (Z.eqb_spec ty TSK_FS_META_TYPE_REG) as [->|]; [|by apply keeps_ret].
    apply keeps_bind; [done| |intros; by apply keeps_ret].
    apply keeps_on_trace_queue_file; [done|].
    intros item Hin. apply list_elem_of_singleton in Hin as ->.
    exists f, nm, inode, meta, path. split; [done|]. split; [|done].
    split; [|done]. by apply (read_entry_bound _ name_str).
Qed.

Lemma ParseImageDir_queued_from `{Runtime} fuel self fs cur_inode path retry :
  keeps (on_trace (λ t, ∀ item, item ∈ queued t → queued_from fs item))
    (ParseImageDir fuel self fs cur_inode path retry).
Proof.
  pose proof (queued_from_hereditary fs) as HR.
  assert (Hlog : ∀ level fmt,
    keeps (on_trace (λ t, ∀ item, item ∈ queued t → queued_from fs item))
      (logging level fmt)).
  { intros. apply keeps_emit. intros _ item Hin. by apply elem_of_nil in Hin. }
  revert cur_inode path retry.
  induction fuel as [|fuel IH]; intros cur_inode path retry; simpl.
  - by apply keeps_raise.
  - apply (keeps_bind_post _
      (λ opened, match opened with
                 | inl _ => True
                 | inr directory => fs_dirs fs !! cur_inode = Some directory
                 end)); [done| | |].
    + apply keeps_try_except, keeps_on_trace_open_dir.
      intros item Hin. by apply elem_of_nil in Hin.
    + intros s [e|directory] s' t; [done|]. unfold try_except.
      destruct (open_dir fs cur_inode s) as [[[d|e|] s1] t1] eqn:Hopen;
        [|by destruct (is_IOError e)|done].
      intros [= <- <- <-]. by eapply open_dir_Return.
    + intros [e|directory] Hdir.
      * apply keeps_bind; [done|apply Hlog|]. intros _.
        destruct retry; [by apply keeps_ret|].
        apply keeps_bind; [done|apply Hlog|auto].
      * apply keeps_bind; [done| |intros; by apply keeps_for_each].
        apply keeps_for_loop_in; [done|]. intros f loc Hf.
        apply ParseImageDir_entry_queued_from. by exists cur_inode, directory.
Qed.

(** What the attributes of a regular file are. *)
Lemma regular_file_attributes f name_str inode_addr meta :
  regular_file f name_str inode_addr meta →
  ∃ tsk_name flags,
    info_name f = Attr (Some tsk_name) ∧
    name_name tsk_name = Attr name_str ∧
    name_flags tsk_name = Attr flags ∧ flags ≠ TSK_FS_NAME_FLAG_UNALLOC ∧
    info_meta f = Attr (Some meta) ∧
    meta_type meta = Attr TSK_FS_META_TYPE_REG ∧
    meta_addr meta = Attr inode_addr.
Proof.
  intros [Hread _]. unfold read_entry in Hread.
  destruct (info_name f) as [[tsk_name|]|]; try done.
  destruct (name_flags tsk_name) as [flags|] eqn:Hflags; try done.
  destruct (Z.eqb_spec flags TSK_FS_NAME_FLAG_UNALLOC); try done.
  destruct (info_meta f) as [[meta'|]|]; try done.
  destruct (name_name tsk_name) as [nm|] eqn:Hname; try done.
  destruct (meta_addr meta') as [addr|] eqn:Haddr; try done.
  destruct (meta_type meta') as [ty|] eqn:Hty; try done.
  injection Hread as -> -> -> ->. by exists tsk_name, flags.
Qed.

(** ParseImageDir, lines 237 to 294. Whatever the volume, the budget and the
    state, a walk queues nothing but regular files: every item it queues is
    the path spec of an entry that is listed in a directory of the volume, has
    a name other than $OrphanFiles, . and .., is not flagged unallocated, has
    metadata of the type of regular files, and whose inode is the inode of the
    path spec. Directories, entries of other types, unallocated entries and
    entries without a name or without metadata are never queued. *)
Theorem walk_queues_only_regular_files `{Runtime} (fuel : nat)
    (self : SimpleImageCollector) (fs : CacheFileSystem) (cur_inode : Z)
    (path : string) (retry : bool) (s : State) (item : queue_item) :
  item ∈ queued (ParseImageDir fuel self fs cur_inode path retry s).2 →
  ∃ f tsk_name name_str flags meta p,
    listed fs f ∧
    info_name f = Attr (Some tsk_name) ∧
    name_name tsk_name = Attr name_str ∧
    (name_str ∉ ["$OrphanFiles"; "."; ".."]) ∧
    name_flags tsk_name = Attr flags ∧ flags ≠ TSK_FS_NAME_FLAG_UNALLOC ∧
    info_meta f = Attr (Some meta) ∧
    meta_type meta = Attr TSK_FS_META_TYPE_REG ∧
    item = ProtoString p ∧
    meta_addr meta = Attr (image_inode p) ∧
    (∃ directory, file_path p = os_path_join directory name_str).
Proof.
  intros Hin.
  destruct (ParseImageDir fuel self fs cur_inode path retry s) as [[o s'] t] eqn:E.
  destruct (ParseImageDir_queued_from _ _ _ _ _ _ _ _ _ _ E item Hin)
    as (f & name_str & inode_addr & meta & dir & Hlisted & Hreg & ->).
  destruct (regular_file_attributes _ _ _ _ Hreg)
    as (tsk_name & flags & ? & ? & ? & ? & ? & ? & ?).
  exists f, tsk_name, name_str, flags, meta, (transfer_proto fs dir name_str inode_addr).
  destruct Hreg as [_ Hname]. repeat (split; [done|]). by exists dir.
Qed.

(** ParseImageDir, lines 268 to 278. Every path spec a walk queues describes
    the volume that is walked: its container path and image offset are those
    of the file system, and it has the type VSS with the store number of the
    file system when that number is not negative, and the type TSK with no
    store number otherwise. *)
Theorem walk_path_specs_describe_volume `{Runtime} (fuel : nat)
    (self : SimpleImageCollector) (fs : CacheFileSystem) (cur_inode : Z)
    (path : string) (retry : bool) (s : State) (item : queue_item) :
  item ∈ queued (ParseImageDir fuel self fs cur_inode path retry s).2 →
  ∃ p,
    item = ProtoString p ∧
    container_path p = fs_path fs ∧ image_offset p = fs_offset fs ∧
    (type p, vss_store_number p)
    = if decide (0 ≤ fs_store_nr fs) then ("VSS", Some (fs_store_nr fs))
      else ("TSK", None).
Proof.
  intros Hin.
  destruct (ParseImageDir fuel self fs cur_inode path retry s) as [[o s'] t] eqn:E.
  destruct (ParseImageDir_queued_from _ _ _ _ _ _ _ _ _ _ E item Hin)
    as (f & name_str & inode_addr & meta & dir & _ & _ & ->).
  eexists. split; [done|]. split; [done|]. split; [done|]. simpl.
  destruct (Z.leb_spec 0 (fs_store_nr fs)); case_decide; done || lia.
Qed.

(** ** The entries loop *)

Lemma read_entry_continue f ns ns' :
  read_entry f ns = ReadContinue → read_entry f ns' = ReadContinue.
Proof. unfold read_entry. by repeat case_match. Qed.

Lemma read_entry_error f ns ns' name_str :
  read_entry f ns = ReadAttributeError name_str →
  ∃ name_str', read_entry f ns' = ReadAttributeError name_str'.
Proof. unfold read_entry. repeat case_match; intros; simplify_eq; eauto. Qed.

Lemma subdirectories_cons path f directory :
  subdirectories path (f :: directory)
  = match read_entry f None with
    | ReadBound name_str inode_addr f_type _ =>
        if bool_decide (name_str ∈ ["$OrphanFiles"; "."; ".."]) then []
        else if f_type =? TSK_FS_META_TYPE_DIR
             then [(inode_addr, os_path_join path name_str)]
             else []
    | _ => []
    end ++ subdirectories path directory.
Proof.
  unfold subdirectories. cbn [omap list_omap].
  destruct (read_entry f None) as [| |name_str inode_addr f_type meta]; [done..|].
  destruct (bool_decide _); [done|]. by destruct (f_type =? _).
Qed.

Lemma regular_files_cons fs path f directory :
  regular_files fs path (f :: directory)
  = match read_entry f None with
    | ReadBound name_str inode_addr f_type _ =>
        if bool_decide (name_str ∈ ["$OrphanFiles"; "."; ".."]) then []
        else if f_type =? TSK_FS_META_TYPE_DIR then []
        else if f_type =? TSK_FS_META_TYPE_REG
             then [ProtoString (transfer_proto fs path name_str inode_addr)]
             else []
    | _ => []
    end ++ regular_files fs path directory.
Proof.
  unfold regular_files. cbn [omap list_omap].
  destruct (read_entry f None) as [| |name_str inode_addr f_type meta]; [done..|].
  destruct (bool_decide _); [done|]. destruct (f_type =? _); [done|].
  by destruct (f_type =? _).
Qed.

(** The directories the entries loop has noted when it comes to its end. *)
Lemma entries_loop_directories `{Runtime} (self : SimpleImageCollector)
    (fs : CacheFileSystem) (path : string) (directory : list TSK_FS_FILE)
    (locals locals' : option string * list (Z * string)) (s s' : State)
    (t : list event) :
  for_loop directory (ParseImageDir_entry self fs path) locals s
  = (Return locals', s', t) →
  locals'.2 = locals.2 ++ subdirectories path directory.
Proof.
  revert locals s t. induction directory as [|f directory IH];
    intros [name_str directories] s t; cbn [for_loop].
  { intros [= <- <- <-]. simpl. by rewrite app_nil_r. }
  unfold_M.
  destruct (ParseImageDir_entry self fs path f (name_str, directories) s)
    as [[[loc1|e|] s1] t1] eqn:Hentry; [|by intros [=]..].
  destruct (for_loop directory _ loc1 s1) as [[o2 s2] t2] eqn:Hloop.
  intros [= -> <- <-]. rewrite (IH _ _ _ Hloop), subdirectories_cons.
  cbn [snd]. rewrite app_assoc. f_equal.
  unfold ParseImageDir_entry in Hentry.
  destruct (read_entry f name_str) as [|[nm|]|nm inode ty meta] eqn:Hread.
  - rewrite (read_entry_continue _ _ None Hread).
    injection Hentry as <- <- <-. by rewrite app_nil_r.
  - destruct (read_entry_error _ _ None _ Hread) as [nm' ->].
    revert Hentry. unfold_M. intros [= <- <- <-]. by rewrite app_nil_r.
  - done.
  - rewrite (read_entry_bound _ _ None _ _ _ _ Hread).
    case_bool_decide as Hskip.
    { injection Hentry as <- <- <-. by rewrite app_nil_r. }
    destruct (ty =? TSK_FS_META_TYPE_DIR).
    { by injection Hentry as <- <- <-. }
    destruct (ty =? TSK_FS_META_TYPE_REG).
    + revert Hentry. unfold_M.
      destruct (queue_file self _ inode meta s) as [[[[]|e|] s0] t0];
        [|by intros [=]..].
      intros [= <- <- <-]. by rewrite app_nil_r.
    + injection Hentry as <- <- <-. by rewrite app_nil_r.
Qed.

(** The entries loop, lines 236 to 294, when it comes to its end: the
    directories it has noted for the descent are, in the order of the listing,
    those entries that read as directories and are not named $OrphanFiles, .
    or ..; and with VSS parsing off it has queued, in the order of the
    listing, the path specs of exactly the entries that read as regular files
    with such a name, and has left the state as it was. *)
Theorem entries_loop_result `{Runtime} (self : SimpleImageCollector)
    (fs : CacheFileSystem) (path : string) (directory : list TSK_FS_FILE)
    (locals locals' : option string * list (Z * string)) (s s' : State)
    (t : list event) :
  for_loop directory (ParseImageDir_entry self fs path) locals s
  = (Return locals', s', t) →
  locals'.2 = locals.2 ++ subdirectories path directory ∧
  (_vss self = false → queued t = regular_files fs path directory ∧ s' = s).
Proof.
  revert locals s t. induction directory as [|f directory IH];
    intros [name_str directories] s t; cbn [for_loop].
  { intros [= <- <- <-]. simpl. by rewrite app_nil_r. }
  unfold_M.
  destruct (ParseImageDir_entry self fs path f (name_str, directories) s)
    as [[[loc1|e|] s1] t1] eqn:Hentry; [|by intros [=]..].
  destruct (for_loop directory _ loc1 s1) as [[o2 s2] t2] eqn:Hloop.
  intros [= -> <- <-]. destruct (IH _ _ _ Hloop) as [IHdirs IHq].
  rewrite subdirectories_cons, regular_files_cons, queued_app, IHdirs.
  cbn [snd]. rewrite app_assoc.
  assert (Hrest : ∀ dirs1 items1,
    loc1.2 = directories ++ dirs1 →
    (_vss self = false → queued t1 = items1 ∧ s1 = s) →
    loc1.2 ++ subdirectories path directory
    = (directories ++ dirs1) ++ subdirectories path directory ∧
    (_vss self = false →
     queued t1 ++ queued t2 = items1 ++ regular_files fs path directory ∧
     s2 = s)).
  { intros dirs1 items1 -> Hq. split; [done|]. intros Hvss.
    destruct (Hq Hvss) as [-> <-]. by destruct (IHq Hvss) as [-> ->]. }
  unfold ParseImageDir_entry in Hentry.
  destruct (read_entry f name_str) as [|[nm|]|nm inode ty meta] eqn:Hread.
  - rewrite (read_entry_continue _ _ None Hread).
    injection Hentry as <- <- <-. apply Hrest; [by rewrite app_nil_r|done].
  - destruct (read_entry_error _ _ None _ Hread) as [nm' ->].
    revert Hentry. unfold_M. intros [= <- <- <-].
    apply Hrest; [by rewrite app_nil_r|done].
  - done.
  - rewrite (read_entry_bound _ _ None _ _ _ _ Hread).
    case_bool_decide as Hskip.
    { injection Hentry as <- <- <-. apply Hrest; [by rewrite app_nil_r|done]. }
    destruct (ty =? TSK_FS_META_TYPE_DIR).
    { injection Hentry as <- <- <-. by apply Hrest. }
    destruct (ty =? TSK_FS_META_TYPE_REG).
    + revert Hentry. unfold_M.
      destruct (queue_file self _ inode meta s) as [[[[]|e|] s0] t0] eqn:Hqueue;
        [|by intros [=]..].
      intros [= <- <- <-]. apply Hrest; [by rewrite app_nil_r|].
      intros Hvss. rewrite queue_file_without_vss in Hqueue by done.
      injection Hqueue as <- <-. by rewrite app_nil_r.
    + injection Hentry as <- <- <-. apply Hrest; [by rewrite app_nil_r|done].
Qed.

(** ** Walks that come to an end *)

Section avoiding.
Context (bad : exn → Prop).

Lemma avoids_ret {A} (a : A) : avoids bad (mret a).
Proof. by intros s. Qed.

Lemma avoids_emit ev : avoids bad (emit ev).
Proof. by intros s. Qed.

Lemma avoids_raise {A} e : ¬ bad e → avoids bad (@raise A e).
Proof. intros He s. split; [done|]. by intros e' [= <-]. Qed.

(** [Post] holds of what the first part returns. *)
Lemma avoids_bind {A B} (Post : A → Prop) (m : M A) (k : A → M B) :
  avoids bad m → (∀ s a, (m s).1.1 = Return a → Post a) →
  (∀ a, Post a → avoids bad (k a)) → avoids bad (m ≫= k).
Proof.
  intros Hm Hpost Hk s. unfold_M.
  destruct (Hm s) as [Hend Hbad]. specialize (Hpost s).
  destruct (m s) as [[[a|e|] s1] t1]; simpl in *.
  - specialize (Hk a (Hpost a eq_refl) s1).
    by destruct (k a s1) as [[o2 s2] t2].
  - split; [done|]. intros e' [= <-]. by apply Hbad.
  - done.
Qed.

Lemma avoids_try_except {A} (m : M A) catches :
  avoids bad m → avoids bad (try_except m catches).
Proof.
  intros Hm s. unfold try_except. destruct (Hm s) as [Hend Hbad].
  destruct (m s) as [[[a|e|] s1] t1]; simpl in *; [done| |done].
  destruct (catches e); simpl; [done|]. split; [done|].
  intros e' [= <-]. by apply Hbad.
Qed.

Lemma avoids_for_each {A} (l : list A) (body : A → M unit) :
  (∀ x, x ∈ l → avoids bad (body x)) → avoids bad (for_each l body).
Proof.
  induction l as [|x l IH]; intros Hbody; [apply (avoids_ret tt)|]. simpl.
  apply (avoids_bind (λ _, True)); [apply Hbody; by left|done|].
  intros _ _. apply IH. intros y Hy. apply Hbody. by right.
Qed.

Lemma avoids_for_loop {A L} (l : list A) (body : A → L → M L) locals :
  (∀ x loc, avoids bad (body x loc)) → avoids bad (for_loop l body locals).
Proof.
  intros Hbody. revert locals.
  induction l as [|x l IH]; intros locals; [apply avoids_ret|]. simpl.
  by apply (avoids_bind (λ _, True)).
Qed.

Context `{Runtime} (self : SimpleImageCollector).
Context (bad_AttributeError : ¬ bad AttributeError).
Context (bad_UnboundLocalError : ¬ bad (UnboundLocalError "name_str")).

Lemma avoids_ParseImageDir_entry fs path f locals :
  avoids bad (ParseImageDir_entry self fs path f locals).
Proof.
  destruct locals as [name_str directories]. unfold ParseImageDir_entry.
  destruct (read_entry f name_str) as [|[nm|]|nm inode ty meta].
  - apply avoids_ret.
  - apply (avoids_bind (λ _, True)); [apply avoids_emit|done|].
    intros; apply avoids_ret.
  - by apply avoids_raise.
  - destruct (bool_decide _); [apply avoids_ret|].
    destruct (ty =? _); [apply avoids_ret|].
    destruct (ty =? _); [|apply avoids_ret].
    apply (avoids_bind (λ _, True)); [|done|intros; apply avoids_ret].
    intros s. unfold queue_file. unfold_M. unfold_M.
    destruct (_vss self); [|done]. simpl.
    destruct (hashlist s); [|split; [done|by intros e [= <-]]].
    by destruct (bool_decide _).
Qed.

(** The walk of a volume: RuntimeError is the one exception of a recursion
    that goes too deep, and it is avoided, where it is to be, on a volume
    whose directories have a rank and with the depth the rank asks for. *)
Lemma avoids_ParseImageDir (rank : Z → nat) (fs : CacheFileSystem) :
  (bad RuntimeError → ranked fs rank) →
  ∀ fuel cur_inode path retry,
    (bad RuntimeError → deep_enough rank fuel cur_inode retry) →
    avoids bad (ParseImageDir fuel self fs cur_inode path retry).
Proof.
  intros Hranked. unfold deep_enough.
  induction fuel as [|fuel IH]; intros cur_inode path retry Hfuel.
  { apply avoids_raise. intros Hbad. specialize (Hfuel Hbad).
    destruct retry; lia. }
  cbn [ParseImageDir].
  apply (avoids_bind (λ opened,
    match opened with
    | inl _ => True
    | inr directory => fs_dirs fs !! cur_inode = Some directory
    end)).
  - intros s. unfold try_except.
    destruct (open_dir_outcome fs cur_inode s) as [Hio|[directory Hdir]];
      destruct (open_dir fs cur_inode s) as [[o s1] t1]; simpl in *; by subst o.
  - intros s [e|directory]; [done|]. unfold try_except.
    destruct (open_dir fs cur_inode s) as [[[d|e|] s1] t1] eqn:Hdir;
      simpl; [|by destruct (is_IOError e)|done].
    intros [= ->]. revert Hdir. unfold open_dir.
    by repeat case_match; intros [= ->].
  - intros [e|directory] Hlisted.
    + apply (avoids_bind (λ _, True)); [apply avoids_emit|done|]. intros _ _.
      destruct retry; [apply avoids_ret|].
      apply (avoids_bind (λ _, True)); [apply avoids_emit|done|]. intros _ _.
      apply IH. intros Hbad. specialize (Hfuel Hbad). simpl in *. lia.
    + apply (avoids_bind (λ locals,
        locals.2 = subdirectories path directory)).
      * apply avoids_for_loop. intros. apply avoids_ParseImageDir_entry.
      * intros s locals Hloop.
        destruct (for_loop directory _ (None, []) s) as [[o s1] t1] eqn:Eloop.
        simpl in Hloop. subst o.
        by rewrite (entries_loop_directories _ _ _ _ _ _ _ _ _ Eloop).
      * intros locals Hdirs. apply avoids_for_each. intros d Hd.
        apply IH. intros Hbad. specialize (Hfuel Hbad). rewrite Hdirs in Hd.
        pose proof (Hranked Hbad cur_inode directory path d Hlisted Hd).
        destruct retry; simpl in *; lia.
Qed.
End avoiding.

(** ParseImageDir, lines 212 to 297. On a volume whose directories form no
    cycle the walk comes to an end: if every directory lists only
    subdirectories of a lower rank, then a recursion budget of twice the rank
    of the starting directory plus two (each level may take one more call for
    the second attempt to open it) is enough for the walk to return or raise
    an exception of its own, in every state and with every pattern of failing
    directories: the recursion does not go too deep, which Python ends with
    RuntimeError. *)
Theorem walk_ends_on_ranked_volume `{Runtime} (rank : Z → nat) (fuel : nat)
    (self : SimpleImageCollector) (fs : CacheFileSystem) (cur_inode : Z)
    (path : string) (retry : bool) (s : State) :
  ranked fs rank →
  (2 * rank cur_inode + 2 ≤ fuel)%nat →
  (ParseImageDir fuel self fs cur_inode path retry s).1.1 ≠ Diverge ∧
  (ParseImageDir fuel self fs cur_inode path retry s).1.1 ≠ Raise RuntimeError.
Proof.
  intros Hranked Hfuel.
  destruct (avoids_ParseImageDir (λ e, e = RuntimeError) self
              ltac:(done) ltac:(done) rank fs (λ _, Hranked) fuel cur_inode
              path retry
              ltac:(intros _; unfold deep_enough; destruct retry; lia) s)
    as [Hend Hbad].
  split; [done|]. intros Hraise. by apply (Hbad RuntimeError).
Qed.

(** ** A second walk over the same directories *)







(** ** The exceptions that leave Collect *)

Section guarding.
Context (I : State → Prop).

Lemma guards_ret {A} Q (a : A) : guards I Q (mret a).
Proof. by intros s Hs. Qed.

Lemma guards_raise {A} (Q : exn → Prop) e : Q e → guards I Q (@raise A e).
Proof. intros HQ s Hs. split; [done|]. by intros e' [= <-]. Qed.

Lemma guards_emit Q ev : guards I Q (emit ev).
Proof. by intros s Hs. Qed.

Lemma guards_bind {A B} Q (m : M A) (k : A → M B) :
  guards I Q m → (∀ a, guards I Q (k a)) → guards I Q (m ≫= k).
Proof.
  intros Hm Hk s Hs. unfold_M. destruct (Hm s Hs) as [HI HQ].
  destruct (m s) as [[[a|e|] s1] t1]; simpl in *.
  - destruct (Hk a s1 HI) as [HI2 HQ2].
    by destruct (k a s1) as [[o2 s2] t2].
  - split; [done|]. intros e' [= <-]. by apply HQ.
  - done.
Qed.

Lemma guards_try_except {A} (Q Q' : exn → Prop) (m : M A) catches :
  guards I Q m → (∀ e, Q e → catches e = false → Q' e) →
  guards I Q' (try_except m catches).
Proof.
  intros Hm Hcatch s Hs. unfold try_except. destruct (Hm s Hs) as [HI HQ].
  destruct (m s) as [[[a|e|] s1] t1]; simpl in *; [done| |done].
  destruct (catches e) eqn:Hc; simpl; [done|]. split; [done|].
  intros e' [= <-]. by apply Hcatch; [apply HQ|].
Qed.

Lemma guards_for_each {A} Q (l : list A) body :
  (∀ x, guards I Q (body x)) → guards I Q (for_each l body).
Proof.
  intros Hb. induction l as [|x l IH]; simpl.
  - apply (guards_ret _ tt).
  - by apply guards_bind.
Qed.

Lemma guards_for_loop {A L} Q (l : list A) (body : A → L → M L) locals :
  (∀ x loc, guards I Q (body x loc)) → guards I Q (for_loop l body locals).
Proof.
  intros Hb. revert locals. induction l as [|x l IH]; intros locals; simpl.
  - apply guards_ret.
  - by apply guards_bind.
Qed.
End guarding.

Section Collect_guards.
Context `{Runtime} (self : SimpleImageCollector).

Lemma guards_open_dir fs inode :
  guards (hashlist_ready self) (λ e, e = IOError) (open_dir fs inode).
Proof.
  intros s Hs. unfold hashlist_ready in *. rewrite open_dir_hashlist.
  split; [done|]. intros e He.
  destruct (open_dir_outcome fs inode s) as [Hio|[d Hd]]; congruence.
Qed.

Lemma guards_queue_file Q proto inode meta :
  guards (hashlist_ready self) Q (queue_file self proto inode meta).
Proof.
  intros s Hs. unfold hashlist_ready, queue_file in *.
  destruct (_vss self); [|done]. unfold_M. unfold_M. simpl.
  destruct (Hs eq_refl) as [hl ->]. by destruct (bool_decide _).
Qed.

Lemma guards_ParseImageDir fuel fs cur_inode path retry :
  guards (hashlist_ready self)
    (λ e, e = UnboundLocalError "name_str" ∨ e = RuntimeError)
    (ParseImageDir fuel self fs cur_inode path retry).
Proof.
  revert cur_inode path retry.
  induction fuel as [|fuel IH]; intros cur_inode path retry; simpl.
  - apply guards_raise. by right.
  - apply guards_bind.
    { eapply guards_try_except; [apply guards_open_dir|]. by intros e ->. }
    intros [e|directory].
    + apply guards_bind; [apply guards_emit|]. intros _.
      destruct retry; [apply guards_ret|].
      apply guards_bind; [apply guards_emit|auto].
    + apply guards_bind; [|intros; by apply guards_for_each].
      apply guards_for_loop. intros f [name_str directories].
      unfold ParseImageDir_entry.
      destruct (read_entry f name_str) as [|[nm|]|nm inode ty meta].
      * apply guards_ret.
      * apply guards_bind; [apply guards_emit|]. intros; apply guards_ret.
      * apply guards_raise. by left.
      * destruct (bool_decide _); [apply guards_ret|].
        destruct (ty =? _); [apply guards_ret|].
        destruct (ty =? _); [|apply guards_ret].
        apply guards_bind; [apply guards_queue_file|]. intros; apply guards_ret.
Qed.

Lemma guards_CollectFromVss fuel image_path store_nr offset :
  guards (hashlist_ready self)
    (λ e, e = UnboundLocalError "name_str" ∨ e = RuntimeError)
    (CollectFromVss fuel self image_path store_nr offset).
Proof.
  unfold CollectFromVss.
  apply guards_bind; [apply guards_emit|]. intros _.
  apply guards_bind.
  - eapply (guards_try_except _
      (λ e, (e = UnboundLocalError "name_str" ∨ e = RuntimeError)
            ∨ e = UnableToOpenFilesystem)).
    + apply guards_bind.
      * unfold fscache_Open. apply guards_bind; [apply guards_emit|]. intros _.
        destruct (_fscache _ _ _ _); [apply guards_ret|].
        apply guards_raise. by right.
      * intros fs s Hs.
        destruct (guards_ParseImageDir fuel fs (fs_root_inum fs) "/" false s Hs)
          as [HI HQ].
        split; [done|]. intros e He. left. by apply HQ.
    + by intros e [?| ->].
  - intros [e|[]]; (apply guards_bind; [|intros; apply guards_emit]).
    + apply guards_emit.
    + apply guards_ret.
Qed.
End Collect_guards.

Lemma raises_only_try_finally {A} Q (m : M A) fin :
  raises_only Q m → raises_only Q fin → raises_only Q (try_finally m fin).
Proof.
  intros Hm Hf s e. unfold raises_only, try_finally in *.
  specialize (Hm s). destruct (m s) as [[[a|e'|] s1] t1]; simpl in *; [| |done];
    specialize (Hf s1); destruct (fin s1) as [[[[]|e''|] s2] t2]; simpl in *;
    try done; intros [= <-]; auto.
Qed.

(** The exceptions that leave Collect: of SimpleImageCollector the
    UnboundLocalError of the entry handler, the NameError of the store loop
    and the RuntimeError of a recursion that is too deep; of
    TargetedImageCollector that NameError alone. IOError,
    UnableToOpenFilesystem and AttributeError are all handled or cannot arise,
    in every state, since Collect creates the hash list before it is read. *)
Lemma Collect_raises `{Runtime} (fuel : nat) (self : SimpleImageCollector)
    (file_filter : string) (s : State) (e : exn) :
  ((SimpleImageCollector_Collect fuel self s).1.1 = Raise e →
   e = UnboundLocalError "name_str" ∨ e = NameError "vss_numbers" ∨
   e = RuntimeError) ∧
  ((TargetedImageCollector_Collect fuel
      {| super := self; _file_filter := file_filter |} s).1.1 = Raise e →
   e = NameError "vss_numbers").
Proof.
  split.
  - set (started :=
      if _vss self then {| hashlist := Some ∅; io_faults := io_faults s |} else s).
    assert (Hreset :
      (if _vss self
       then s0 ← get_state;
            put_state {| hashlist := Some ∅; io_faults := io_faults s0 |}
       else mret tt) s = (Return tt, started, []))
      by (subst started; by destruct (_vss self)).
    assert (Hready : hashlist_ready self started).
    { intros Hvss. subst started. rewrite Hvss. by eexists. }
    unfold SimpleImageCollector_Collect.
    erewrite run_bind_Return by reflexivity. cbv beta.
    erewrite run_bind_Return by exact Hreset. cbv beta. cbn [fst snd].
    match goal with
    | |- (?m started).1.1 = _ → _ =>
        assert (Hguards : guards (hashlist_ready self)
          (λ e, e = UnboundLocalError "name_str" ∨ e = NameError "vss_numbers" ∨
                e = RuntimeError) m);
          [|exact (proj2 (Hguards started Hready) e)]
    end.
    apply guards_bind.
    { eapply (guards_try_except _
        (λ e, (e = UnboundLocalError "name_str" ∨ e = RuntimeError)
              ∨ e = UnableToOpenFilesystem)).
      - apply guards_bind.
        + unfold fscache_Open. apply guards_bind; [apply guards_emit|].
          intros _. destruct (_fscache _ _ _ _); [apply guards_ret|].
          apply guards_raise. by right.
        + intros fs s0 Hs0.
          destruct (guards_ParseImageDir self fuel fs (fs_root_inum fs)
                      os_path_sep false s0 Hs0) as [HI HQ].
          split; [done|]. intros e1 He1. left. by apply HQ.
      - intros e1 [[->| ->]| ->]; [auto|auto|done]. }
    intros [e0|[]]; [apply guards_emit|].
    apply guards_bind.
    { destruct (_vss self); [apply guards_emit|apply guards_ret]. }
    intros _. apply guards_bind.
    { intros s0 Hs0. destruct (GetVssStores_run self
        (py_or (_offset_bytes self) (_offset self * SECTOR_SIZE)) s0)
        as (stores & Hg & _). by rewrite (Hg s0). }
    intros stores. apply guards_bind; [|intros; apply guards_emit].
    apply guards_for_each. intros store_nr.
    apply guards_bind.
    { unfold load_vss_numbers. destruct global_vss_numbers;
        [apply guards_ret|apply guards_raise; auto]. }
    intros _. apply guards_bind; [apply guards_emit|]. intros _.
    intros s0 Hs0.
    destruct (guards_CollectFromVss self fuel (_image self) store_nr
                (py_or (_offset_bytes self) (_offset self * SECTOR_SIZE)) s0 Hs0)
      as [HI HQ].
    split; [done|]. intros e0 He0. destruct (HQ e0 He0); auto.
  - revert s e. change (raises_only (λ e, e = NameError "vss_numbers")
      (TargetedImageCollector_Collect fuel
         {| super := self; _file_filter := file_filter |})).
    assert (Hspecs : ∀ c, raises_only (λ e, e = NameError "vss_numbers")
                            (queue_pathspecs c file_filter)).
    { intros c s0 e0. by rewrite queue_pathspecs_run. }
    unfold TargetedImageCollector_Collect. cbn [super _file_filter].
    apply raises_only_try_finally; [|apply raises_only_emit].
    apply raises_only_bind; [apply Hspecs|]. intros _.
    destruct (_vss self) eqn:Hvss; [|apply raises_only_ret].
    apply raises_only_bind; [apply raises_only_emit|]. intros _.
    apply raises_only_bind.
    { intros s0 e0. destruct (GetVssStores_run self
        (py_or (_offset_bytes self) (_offset self * SECTOR_SIZE)) s0)
        as (stores & Hg & _). by rewrite (Hg s0). }
    intros stores. apply raises_only_for_each. intros store_nr.
    apply raises_only_bind.
    { unfold load_vss_numbers. destruct global_vss_numbers;
        [apply raises_only_ret|by apply raises_only_raise]. }
    intros _. apply raises_only_bind; [apply raises_only_emit|]. intros _.
    apply Hspecs.
Qed.

(** ** The hash list of a run *)

(** Collect, lines 171 to 173. The hash list belongs to one run: a Collect
    that parses VSS starts from an empty hash list whatever an earlier run has
    left in the collector, so that it ends, queues and leaves the collector as
    if there had been no earlier run. *)
Theorem Collect_forgets_hashlist `{Runtime} (fuel : nat)
    (self : SimpleImageCollector) (s : State)
    (earlier : option (gmap Z (list string))) :
  _vss self = true →
  SimpleImageCollector_Collect fuel self
    {| hashlist := earlier; io_faults := io_faults s |}
  = SimpleImageCollector_Collect fuel self s.
Proof.
  intros Hvss. unfold SimpleImageCollector_Collect. rewrite Hvss.
  unfold_M. unfold_M. reflexivity.
Qed.

Lemma hashlist_NoDup_hereditary :
  hereditary (λ s s' _, hashlist_NoDup s → hashlist_NoDup s').
Proof. split; [done|]. intros s1 s2 s3 _ _ H1 H2 Hs. auto. Qed.

Lemma queue_file_NoDup `{Runtime} self proto inode meta :
  keeps (λ s s' _, hashlist_NoDup s → hashlist_NoDup s')
    (queue_file self proto inode meta).
Proof.
  intros s o s' t. unfold queue_file. unfold_M. unfold_M.
  destruct (_vss self); [|by intros [= _ <- _]]. simpl.
  destruct (hashlist s) as [hl|] eqn:Hhl; [|by intros [= _ <- _]].
  case_bool_decide as Hseen; simpl; intros [= _ <- _]; [done|].
  intros Hnodup hl' i fingerprints [= <-] Hi.
  destruct (decide (inode = i)) as [->|Hne].
  - rewrite lookup_insert_eq in Hi. injection Hi as <-.
    apply NoDup_app. split; [|split].
    + destruct (hl !! i) as [l|] eqn:Hl; simpl; [by eapply Hnodup|constructor].
    + intros x Hx Hx'. apply list_elem_of_singleton in Hx' as ->. done.
    + apply NoDup_singleton.
  - rewrite lookup_insert_ne in Hi by done. by eapply Hnodup.
Qed.

(** ParseImageDir, lines 287 to 291. No inode of the hash list ever holds the
    same fingerprint twice: a walk that starts from a hash list without such
    repetitions leaves one without them, and so does every Collect that parses
    VSS, whatever the state it starts in. *)
Theorem hashlist_has_no_repetitions `{Runtime} (fuel : nat)
    (self : SimpleImageCollector) (s : State) :
  (∀ fs cur_inode path retry,
     hashlist_NoDup s →
     hashlist_NoDup (ParseImageDir fuel self fs cur_inode path retry s).1.2) ∧
  (_vss self = true →
   hashlist_NoDup (SimpleImageCollector_Collect fuel self s).1.2).
Proof.
  assert (Hlog : ∀ level fmt,
    keeps (λ s s' _, hashlist_NoDup s → hashlist_NoDup s') (logging level fmt)).
  { intros. by apply keeps_emit. }
  assert (Hdir : ∀ fs inode,
    keeps (λ s s' _, hashlist_NoDup s → hashlist_NoDup s') (open_dir fs inode)).
  { intros fs inode s0 o s0' t E Hs hl i l Hhl.
    pose proof (open_dir_hashlist fs inode s0) as Hh. rewrite E in Hh.
    simpl in Hh. rewrite Hh in Hhl. by eapply Hs. }
  split.
  - intros fs cur_inode path retry Hs.
    destruct (ParseImageDir fuel self fs cur_inode path retry s)
      as [[o s'] t] eqn:E.
    revert E Hs.
    apply (keeps_ParseImageDir (λ s s' _, hashlist_NoDup s → hashlist_NoDup s'));
      auto using hashlist_NoDup_hereditary, queue_file_NoDup.
  - intros Hvss.
    assert (Hreset : SimpleImageCollector_Collect fuel self s
                     = SimpleImageCollector_Collect fuel self
                         {| hashlist := Some ∅; io_faults := io_faults s |}).
    { unfold SimpleImageCollector_Collect. rewrite Hvss.
      unfold_M. unfold_M. reflexivity. }
    rewrite Hreset. clear Hreset.
    destruct (SimpleImageCollector_Collect fuel self _) as [[o s'] t] eqn:E.
    revert E. simpl.
    intros E. eapply (keeps_SimpleImageCollector_Collect
      (λ s s' _, hashlist_NoDup s → hashlist_NoDup s')); try exact E;
      auto using hashlist_NoDup_hereditary, queue_file_NoDup.
    + intros s0 _ hl i l [= <-]. by rewrite lookup_empty.
    + intros hl i l [= <-]. by rewrite lookup_empty.
Qed.

(** ** Fingerprints and timestamps *)

Lemma pretty_N_go_numeral (x : N) (str : string) :
  numeral str → numeral (pretty_N_go x str).
Proof.
  revert str. induction (N.lt_wf_0 x) as [x _ IH]; intros str Hstr.
  destruct (decide (x = 0)%N) as [->|Hx]; [by rewrite pretty_N_go_0|].
  rewrite pretty_N_go_step by lia. apply IH; [apply N.div_lt; lia|].
  split; [|done]. unfold pretty_N_char. by repeat case_match.
Qed.

Lemma pretty_Z_numeral (x : Z) : numeral (pretty x).
Proof.
  assert (HN : ∀ n : N, numeral (pretty n)).
  { intros n. unfold pretty, pretty_N. case_decide; [done|].
    by apply pretty_N_go_numeral. }
  destruct x as [|p|p]; [done|apply (HN (N.pos p))|].
  split; [done|apply (HN (N.pos p))].
Qed.

Lemma append_assoc (a b c : string) : (a +:+ b) +:+ c = a +:+ (b +:+ c).
Proof.
  induction a as [|x a IH]; [done|].
  change (String x ((a +:+ b) +:+ c) = String x (a +:+ (b +:+ c))).
  by rewrite IH.
Qed.

Lemma append_String (x : ascii) (a b : string) :
  String x a +:+ b = String x (a +:+ b).
Proof. reflexivity. Qed.

Lemma append_empty_l (b : string) : "" +:+ b = b.
Proof. reflexivity. Qed.

(** Two numbers followed by the same character, which is not one of a
    number: the numbers are the same, and so is what follows. *)
Lemma numeral_split (a a' r r' : string) (c : ascii) :
  numeral a → numeral a' → numeral_char c = false →
  a +:+ String c r = a' +:+ String c r' → a = a' ∧ r = r'.
Proof.
  intros Ha Ha' Hc. revert a' Ha'.
  induction a as [|x a IH]; intros [|x' a'] Ha'.
  - by intros [= ->].
  - intros [= <- _]. destruct Ha' as [Hx' _]. congruence.
  - intros [= -> _]. destruct Ha as [Hx _]. congruence.
  - change (String x (a +:+ String c r) = String x' (a' +:+ String c r')
            → String x a = String x' a' ∧ r = r').
    intros [= -> Hrest]. destruct Ha as [_ Ha], Ha' as [_ Ha'].
    by destruct (IH Ha a' Ha' Hrest) as [-> ->].
Qed.

(** The text that is hashed gives the four timestamp pairs back. *)
Lemma fingerprint_text_inj (meta1 meta2 : TSK_FS_META) :
  fingerprint_text (zip ["atime"; "crtime"; "mtime"; "ctime"] (timestamps meta1))
  = fingerprint_text (zip ["atime"; "crtime"; "mtime"; "ctime"] (timestamps meta2)) →
  timestamps meta1 = timestamps meta2.
Proof.
  unfold fingerprint_text, timestamps. cbn [zip zip_with foldr fst snd].
  generalize (getattr (atime meta1) 0) (getattr (atime_nano meta1) 0)
    (getattr (crtime meta1) 0) (getattr (crtime_nano meta1) 0)
    (getattr (mtime meta1) 0) (getattr (mtime_nano meta1) 0)
    (getattr (ctime meta1) 0) (getattr (ctime_nano meta1) 0)
    (getattr (atime meta2) 0) (getattr (atime_nano meta2) 0)
    (getattr (crtime meta2) 0) (getattr (crtime_nano meta2) 0)
    (getattr (mtime meta2) 0) (getattr (mtime_nano meta2) 0)
    (getattr (ctime meta2) 0) (getattr (ctime_nano meta2) 0).
  intros a an b bn c cn d dn a' an' b' bn' c' cn' d' dn'.
  rewrite !append_assoc, !append_empty_r.
  intros Htext. rewrite !append_String, !append_empty_l in Htext.
  repeat match goal with
  | H : String ?x _ = String ?x _ |- _ => injection H as H
  | H : pretty ?u +:+ String ?ch _ = pretty ?v +:+ String ?ch _ |- _ =>
      apply numeral_split in H as [?%(inj pretty) H];
        [|apply pretty_Z_numeral|apply pretty_Z_numeral|reflexivity]
  | H : pretty ?u = pretty ?v |- _ => apply (inj pretty) in H
  end.
  by subst.
Qed.

(** CalculateNTFSTimeHash, lines 299 to 327. The text that is hashed tells
    the four timestamp pairs apart: two files have the same fingerprint only
    when their four pairs (a missing field counted as 0) are the same, or when
    the two different texts are a collision of MD5. *)
Theorem same_fingerprint_same_timestamps `{Runtime} (meta1 meta2 : TSK_FS_META) :
  CalculateNTFSTimeHash meta1 = CalculateNTFSTimeHash meta2 →
  timestamps meta1 = timestamps meta2 ∨
  ∃ text1 text2,
    text1 ≠ text2 ∧ md5_hexdigest text1 = md5_hexdigest text2 ∧
    text1 = fingerprint_text
              (zip ["atime"; "crtime"; "mtime"; "ctime"] (timestamps meta1)) ∧
    text2 = fingerprint_text
              (zip ["atime"; "crtime"; "mtime"; "ctime"] (timestamps meta2)).
Proof.
  rewrite !CalculateNTFSTimeHash_text. intros Hhash.
  destruct (decide
    (fingerprint_text (zip ["atime"; "crtime"; "mtime"; "ctime"] (timestamps meta1))
     = fingerprint_text
         (zip ["atime"; "crtime"; "mtime"; "ctime"] (timestamps meta2))))
    as [Heq|Hne].
  - left. by apply fingerprint_text_inj.
  - right. by eexists _, _.
Qed.

(** ** The properties on the sample image *)

(** /a.txt of the sample volume. *)
Lemma walk_queues_only_regular_files_witness :
  ∃ f meta,
    listed (sample_volume (-1)) f ∧
    info_meta f = Attr (Some meta) ∧
    meta_type meta = Attr TSK_FS_META_TYPE_REG ∧
    meta_addr meta = Attr 5.
Proof.
  destruct (walk_queues_only_regular_files (H := sample_runtime) 5
              (sample_collector false None) (sample_volume (-1)) 2 "/" false
              fresh_state
              (ProtoString (transfer_proto (sample_volume (-1)) "/" "a.txt" 5)))
    as (f & tsk_name & name_str & flags & meta & p & Hlisted & _ & _ & _ & _ & _
        & Hmeta & Htype & Hitem & Haddr & _).
  { vm_compute. constructor. }
  injection Hitem as <-. by exists f, meta.
Defined.

(** /a.txt of store 1 of the sample image. *)
Lemma walk_path_specs_describe_volume_witness :
  (type (transfer_proto (sample_volume 1) "/" "a.txt" 5),
   vss_store_number (transfer_proto (sample_volume 1) "/" "a.txt" 5))
  = ("VSS", Some 1).
Proof.
  destruct (walk_path_specs_describe_volume (H := sample_runtime) 5
              (sample_collector true None) (sample_volume 1) 2 "/" false
              collecting_state
              (ProtoString (transfer_proto (sample_volume 1) "/" "a.txt" 5)))
    as (p & Hitem & _ & _ & Htype).
  { vm_compute. constructor. }
  injection Hitem as <-. exact Htype.
Defined.

(** The root directory of the sample volume. *)
Lemma entries_loop_result_witness :
  ∃ locals' s' t,
    for_loop sample_listing
      (ParseImageDir_entry (H := sample_runtime) (sample_collector false None)
         (sample_volume (-1)) "/") (None, []) fresh_state
    = (Return locals', s', t) ∧
    locals'.2 = [(6, "/b")] ∧ queued_paths t = ["/a.txt"; "/h"].
Proof.
  assert (∃ locals' s' t,
    for_loop sample_listing
      (ParseImageDir_entry (H := sample_runtime) (sample_collector false None)
         (sample_volume (-1)) "/") (None, []) fresh_state
    = (Return locals', s', t)) as (locals' & s' & t & E)
    by (eexists _, _, _; vm_compute; reflexivity).
  destruct (entries_loop_result (H := sample_runtime) _ _ _ _ _ _ _ _ _ E)
    as [Hdirs Hqueued].
  destruct (Hqueued eq_refl) as [Hq _].
  exists locals', s', t. split; [exact E|]. split.
  - rewrite Hdirs. vm_compute. reflexivity.
  - unfold queued_paths. rewrite Hq. vm_compute. reflexivity.
Defined.

(** The sample volume, whose root has height 1. *)
Lemma walk_ends_on_ranked_volume_witness :
  (ParseImageDir (H := sample_runtime) 4 (sample_collector false None)
     (sample_volume (-1)) 2 "/" false faulty_state).1.1 ≠ Diverge ∧
  (ParseImageDir (H := sample_runtime) 4 (sample_collector false None)
     (sample_volume (-1)) 2 "/" false faulty_state).1.1 ≠ Raise RuntimeError.
Proof.
  apply (walk_ends_on_ranked_volume (H := sample_runtime) sample_rank).
  - intros inode directory path d Hdir Hd. simpl in Hdir.
    apply lookup_insert_Some in Hdir as [[<- <-]|[_ Hdir]].
    + change (d ∈ [(6, os_path_join path "b")]) in Hd.
      apply list_elem_of_singleton in Hd as ->. vm_compute. constructor.
    + apply lookup_singleton_Some in Hdir as [<- <-].
      change (d ∈ []) in Hd. by apply elem_of_nil in Hd.
  - vm_compute. repeat constructor.
Defined.


(** A run of the sample collector that finds a hash list of an earlier run. *)
Lemma Collect_forgets_hashlist_witness :
  SimpleImageCollector_Collect (H := sample_runtime) 5 (sample_collector true None)
    {| hashlist := Some {[ 5 := ["stale"] ]}; io_faults := ∅ |}
  = SimpleImageCollector_Collect (H := sample_runtime) 5
      (sample_collector true None) fresh_state.
Proof.
  exact (Collect_forgets_hashlist (H := sample_runtime) 5
           (sample_collector true None) fresh_state
           (Some {[ 5 := ["stale"] ]}) eq_refl).
Defined.

(** Two files of the sample image with the same four timestamps. *)
Lemma same_fingerprint_same_timestamps_witness :
  timestamps (sample_meta 5 TSK_FS_META_TYPE_REG 10)
  = timestamps (sample_meta 7 TSK_FS_META_TYPE_DIR 10).
Proof.
  destruct (same_fingerprint_same_timestamps (H := sample_runtime)
              (sample_meta 5 TSK_FS_META_TYPE_REG 10)
              (sample_meta 7 TSK_FS_META_TYPE_DIR 10))
    as [Hsame|(text1 & text2 & Hne & Heq & _)].
  - reflexivity.
  - exact Hsame.
  - destruct (Hne Heq).
Defined.

(** A walk and a run of the sample image. *)
Lemma hashlist_has_no_repetitions_witness :
  hashlist_NoDup
    (ParseImageDir (H := sample_runtime) 5 (sample_collector true None)
       (sample_volume 1) 2 "/" false collecting_state).1.2 ∧
  hashlist_NoDup
    (SimpleImageCollector_Collect (H := sample_runtime) 5
       (sample_collector true None) fresh_state).1.2.
Proof.
  split.
  - apply (hashlist_has_no_repetitions (H := sample_runtime) 5
             (sample_collector true None) collecting_state).
    intros hl inode fingerprints [= <-]. by rewrite lookup_empty.
  - apply (hashlist_has_no_repetitions (H := sample_runtime) 5
             (sample_collector true None) fresh_state).
    reflexivity.
Defined.

(** ** The targeted collector of an image *)

Lemma targeted_store_loop `{Runtime} image offset file_filter stores s :
  ∃ o t,
    for_each stores
      (λ store_nr,
         load_vss_numbers;;
         logging INFO "Collecting from VSS store number: %d/%d";;
         queue_pathspecs (VSSFileCollector image store_nr offset) file_filter) s
    = (o, s, t) ∧ o ≠ Diverge ∧ (stores = [] → o = Return tt ∧ t = []).
Proof.
  induction stores as [|nr stores IH]; [by eexists _, _|].
  destruct IH as (o & t & IH & Ho & _).
  cbn [for_each].
  destruct global_vss_numbers as [v|] eqn:Hglobal.
  - assert (Hbody : ∃ t0,
      (load_vss_numbers ≫= λ _ : Z,
         logging INFO "Collecting from VSS store number: %d/%d";;
         queue_pathspecs (VSSFileCollector image nr offset) file_filter) s
      = (Return tt, s, t0)).
    { erewrite run_bind_Return
        by (unfold load_vss_numbers; rewrite Hglobal; reflexivity).
      cbv beta. erewrite run_bind_Return by reflexivity. cbv beta.
      rewrite queue_pathspecs_run. by eexists. }
    destruct Hbody as [t0 Hbody].
    erewrite run_bind_Return by exact Hbody. cbv beta. rewrite IH.
    by eexists _, _.
  - erewrite run_bind_Raise; [by eexists _, _|].
    erewrite run_bind_Raise
      by (unfold load_vss_numbers; rewrite Hglobal; reflexivity).
    reflexivity.
Qed.

(** What the try block of TargetedImageCollector.Collect does. *)
Lemma TargetedImageCollector_Collect_run `{Runtime} fuel self s :
  let offset :=
    py_or (_offset_bytes (super self)) (_offset (super self) * SECTOR_SIZE) in
  ∃ o rest,
    TargetedImageCollector_Collect fuel self s
    = (o, s,
       EvGetPathSpecs (TSKFileCollector (_image (super self)) offset)
         (_file_filter self)
       :: ((λ str, EvQueue (PathSpecString str))
             <$> GetPathSpecs (TSKFileCollector (_image (super self)) offset)
                   (_file_filter self))
       ++ rest ++ [EvLog DEBUG "Targeted Image Collector - Done."]) ∧
    o ≠ Diverge ∧
    ((GetVssStores (super self) offset s).1.1 = Return [] →
     o = Return tt ∧ queued rest = []).
Proof.
  intros offset. unfold TargetedImageCollector_Collect. fold offset.
  destruct (GetVssStores_run (super self) offset s) as (stores & Hstores & Hres).
  destruct (targeted_store_loop (_image (super self)) offset (_file_filter self)
              stores s) as (o & t & Hloop & Ho & Hnil).
  assert (Hrest : ∃ o' rest,
    (if _vss (super self)
     then logging DEBUG "Searching for VSS";;
          stores ← GetVssStores (super self) offset;
          for_each stores
            (λ store_nr,
               load_vss_numbers;;
               logging INFO "Collecting from VSS store number: %d/%d";;
               queue_pathspecs
                 (VSSFileCollector (_image (super self)) store_nr offset)
                 (_file_filter self))
     else mret tt) s = (o', s, rest) ∧ o' ≠ Diverge ∧
    (stores = [] → o' = Return tt ∧ queued rest = [])).
  { destruct (_vss (super self)) eqn:Hvss; [|by eexists _, _].
    erewrite run_bind_Return by reflexivity. cbv beta. cbn [fst snd].
    erewrite run_bind_Return by apply Hstores. cbv beta. rewrite Hloop.
    cbn [fst snd]. eexists _, _. split; [done|]. split; [done|].
    intros Hs. destruct (Hnil Hs) as [-> ->]. done. }
  destruct Hrest as (o' & rest & Hrest & Ho' & Hnil').
  unfold try_finally.
  erewrite run_bind_Return by apply queue_pathspecs_run. cbv beta.
  rewrite Hrest. cbn [fst snd].
  exists o', rest. split; [|split; [done|]].
  - destruct o' as [[]|e|]; [| |done]; unfold_M; simpl; by rewrite <- app_assoc.
  - rewrite Hres. intros [= Hs]. by apply Hnil'.
Qed.

(** TargetedImageCollector.Collect, lines 379 to 405, in every state and
    whatever the filter yields: Collect comes to an end; it leaves the state,
    and so the hash list, as it was; the path specs of the main volume are
    queued before anything else; and the finally clause logs its line last,
    also when the store loop raises. *)
Theorem TargetedImageCollector_Collect_always `{Runtime} (fuel : nat)
    (self : TargetedImageCollector) (s : State) :
  let offset :=
    py_or (_offset_bytes (super self)) (_offset (super self) * SECTOR_SIZE) in
  let run := TargetedImageCollector_Collect fuel self s in
  run.1.1 ≠ Diverge ∧ run.1.2 = s ∧
  (∃ rest,
     queued run.2
     = (PathSpecString
          <$> GetPathSpecs (TSKFileCollector (_image (super self)) offset)
                (_file_filter self)) ++ rest) ∧
  last run.2 = Some (EvLog DEBUG "Targeted Image Collector - Done.").
Proof.
  intros offset run.
  destruct (TargetedImageCollector_Collect_run fuel self s)
    as (o & rest & Hrun & Ho & _).
  subst run. fold offset in Hrun. rewrite Hrun. cbn [fst snd].
  split; [done|]. split; [done|]. split.
  - exists (queued rest).
    change (EvGetPathSpecs ?c ?f :: ?l) with ([EvGetPathSpecs c f] ++ l).
    rewrite !queued_app, queued_pathspecs. cbn. by rewrite app_nil_r.
  - by rewrite app_comm_cons, app_assoc, last_snoc.
Qed.

(** TargetedImageCollector.Collect, lines 379 to 405, when GetVssStores
    selects no store (VSS parsing off, or no store in the volume or in
    range): Collect returns, having queued the path specs the filter yields
    for the main volume, these only and in their order, and Run closes the
    queue once. *)
Theorem TargetedImageCollector_without_stores `{Runtime} (fuel : nat)
    (self : TargetedImageCollector) (s : State) :
  let offset :=
    py_or (_offset_bytes (super self)) (_offset (super self) * SECTOR_SIZE) in
  (GetVssStores (super self) offset s).1.1 = Return [] →
  (TargetedImageCollector_Collect fuel self s).1.1 = Return tt ∧
  queued (TargetedImageCollector_Collect fuel self s).2
  = PathSpecString
      <$> GetPathSpecs (TSKFileCollector (_image (super self)) offset)
            (_file_filter self) ∧
  queued (Run fuel self s).2 = queued (TargetedImageCollector_Collect fuel self s).2 ∧
  closes (Run fuel self s).2 = [tt].
Proof.
  intros offset Hstores.
  destruct (TargetedImageCollector_Collect_run fuel self s)
    as (o & rest & Hrun & _ & Hnil).
  fold offset in Hrun, Hnil. destruct (Hnil Hstores) as [-> Hrest].
  pose proof (TargetedImageCollector_Collect_no_Close fuel self s) as Hclose.
  unfold Run, Collect, TargetedImageCollector_Collector.
  erewrite run_bind_Return by exact Hrun. rewrite Hrun in Hclose |- *.
  cbn [fst snd] in *. split; [done|]. split; [|split].
  - change (EvGetPathSpecs ?c ?f :: ?l) with ([EvGetPathSpecs c f] ++ l).
    rewrite !queued_app, queued_pathspecs, Hrest. cbn. by rewrite !app_nil_r.
  - unfold_M. cbn [fst snd]. rewrite queued_app. cbn. by rewrite app_nil_r.
  - unfold_M. cbn [fst snd]. rewrite closes_app, Hclose. done.
Qed.

(** The sample image under a filter, VSS parsing off. *)
Lemma TargetedImageCollector_without_stores_witness :
  Run (H := @TargetedImageCollector_Collector sample_runtime) 5
    {| super := sample_collector false None; _file_filter := "filter.txt" |}
    fresh_state
  = (Return tt, fresh_state,
     [EvGetPathSpecs (TSKFileCollector "image.dd" 0) "filter.txt";
      EvQueue (PathSpecString "pathspec");
      EvLog DEBUG "Targeted Image Collector - Done.";
      EvClose]) ∧
  closes
    (Run (H := @TargetedImageCollector_Collector sample_runtime) 5
       {| super := sample_collector false None; _file_filter := "filter.txt" |}
       fresh_state).2 = [tt].
Proof.
  split; [vm_compute; reflexivity|].
  apply (TargetedImageCollector_without_stores (H := sample_runtime) 5
           {| super := sample_collector false None; _file_filter := "filter.txt" |}
           fresh_state).
  reflexivity.
Defined.

(** ** The ways out of Collect *)

(** The walk avoids [bad] exceptions when the volume has a rank and the depth
    the rank asks for, should RuntimeError be one of them. *)
Lemma avoids_ParseImageDir_ranked `{Runtime} (bad : exn → Prop)
    (self : SimpleImageCollector) (fs : CacheFileSystem) (fuel : nat)
    (cur_inode : Z) (path : string) (retry : bool) :
  ¬ bad AttributeError → ¬ bad (UnboundLocalError "name_str") →
  (bad RuntimeError →
   ∃ rank, ranked fs rank ∧ deep_enough rank fuel cur_inode retry) →
  avoids bad (ParseImageDir fuel self fs cur_inode path retry).
Proof.
  intros Hattr Hunbound Hdeep s. split.
  - assert (Hends : avoids (λ _, False)
                      (ParseImageDir fuel self fs cur_inode path retry)).
    { apply (avoids_ParseImageDir _ self) with (rank := λ _, 0%nat);
        by intros []. }
    apply Hends.
  - intros e He Hbad. destruct (decide (e = RuntimeError)) as [->|Hne].
    + destruct (Hdeep Hbad) as (rank & Hranked & Hfuel).
      assert (Hends : avoids bad
                        (ParseImageDir fuel self fs cur_inode path retry))
        by (by apply (avoids_ParseImageDir _ self) with (rank := rank)).
      by apply (proj2 (Hends s) RuntimeError).
    + assert (Hends : avoids (λ e', bad e' ∧ e' ≠ RuntimeError)
                        (ParseImageDir fuel self fs cur_inode path retry)).
      { apply (avoids_ParseImageDir _ self) with (rank := λ _, 0%nat);
          by intros []. }
      by apply (proj2 (Hends s) e).
Qed.

Section Collect_avoids.
Context `{Runtime} (bad : exn → Prop) (fuel : nat) (self : SimpleImageCollector).
Context (bad_AttributeError : ¬ bad AttributeError).
Context (bad_UnboundLocalError : ¬ bad (UnboundLocalError "name_str")).
Context (bad_NameError : ¬ bad (NameError "vss_numbers")).
Context (bad_UnableToOpenFilesystem : ¬ bad UnableToOpenFilesystem).
Context (deep : bad RuntimeError → ∀ image_path offset store_nr fs,
  _fscache self image_path offset store_nr = Some fs →
  ∃ rank, ranked fs rank ∧ deep_enough rank fuel (fs_root_inum fs) false).

Lemma avoids_open_and_walk image_path offset store_nr path :
  avoids bad
    (fs ← fscache_Open self image_path offset store_nr;
     ParseImageDir fuel self fs (fs_root_inum fs) path false).
Proof.
  apply (avoids_bind bad
           (λ fs, _fscache self image_path offset store_nr = Some fs)).
  - unfold fscache_Open.
    apply (avoids_bind bad (λ _, True)); [apply avoids_emit|done|].
    intros _ _. destruct (_fscache _ _ _ _); [apply avoids_ret|].
    by apply avoids_raise.
  - intros s fs. unfold fscache_Open. unfold_M. unfold_M. simpl.
    destruct (_fscache _ _ _ _); simpl; [|done]. by intros [= <-].
  - intros fs Hopen. apply avoids_ParseImageDir_ranked; [done..|].
    intros Hbad. by apply (deep Hbad image_path offset store_nr).
Qed.

Lemma avoids_CollectFromVss image_path store_nr offset :
  avoids bad (CollectFromVss fuel self image_path store_nr offset).
Proof.
  unfold CollectFromVss.
  apply (avoids_bind bad (λ _, True)); [apply avoids_emit|done|]. intros _ _.
  apply (avoids_bind bad (λ _, True));
    [apply avoids_try_except, avoids_open_and_walk|done|].
  intros [e|[]] _;
    (apply (avoids_bind bad (λ _, True)); [|done|intros; apply avoids_emit]).
  - apply avoids_emit.
  - apply avoids_ret.
Qed.

Lemma avoids_SimpleImageCollector_Collect :
  avoids bad (SimpleImageCollector_Collect fuel self).
Proof.
  unfold SimpleImageCollector_Collect.
  apply (avoids_bind bad (λ _, True)); [apply avoids_emit|done|]. intros _ _.
  apply (avoids_bind bad (λ _, True)); [|done|]. 
  { destruct (_vss self); [|apply avoids_ret]. by intros s. }
  intros _ _.
  apply (avoids_bind bad (λ _, True));
    [apply avoids_try_except, avoids_open_and_walk|done|].
  intros [e|[]] _; [apply avoids_emit|].
  apply (avoids_bind bad (λ _, True)); [|done|].
  { destruct (_vss self); [apply avoids_emit|apply avoids_ret]. }
  intros _ _.
  apply (avoids_bind bad (λ _, True)); [|done|].
  { intros s. destruct (GetVssStores_run self
      (py_or (_offset_bytes self) (_offset self * SECTOR_SIZE)) s)
      as (stores & Hg & _). by rewrite (Hg s). }
  intros stores _.
  apply (avoids_bind bad (λ _, True)); [|done|intros; apply avoids_emit].
  apply avoids_for_each. intros store_nr _.
  apply (avoids_bind bad (λ _, True)); [|done|].
  { unfold load_vss_numbers.
    destruct global_vss_numbers; [apply avoids_ret|by apply avoids_raise]. }
  intros _ _.
  apply (avoids_bind bad (λ _, True)); [apply avoids_emit|done|]. intros _ _.
  apply avoids_CollectFromVss.
Qed.
End Collect_avoids.

(** A listing of the sample volume has the rank of its directory. *)
Lemma sample_volume_ranked (store_nr : Z) :
  ranked (sample_volume store_nr) sample_rank.
Proof.
  intros inode directory path d Hdir Hd. simpl in Hdir.
  apply lookup_insert_Some in Hdir as [[<- <-]|[_ Hdir]].
  - change (d ∈ [(6, os_path_join path "b")]) in Hd.
    apply list_elem_of_singleton in Hd as ->. vm_compute. constructor.
  - apply lookup_singleton_Some in Hdir as [<- <-].
    change (d ∈ []) in Hd. by apply elem_of_nil in Hd.
Qed.

(** On a volume with a cycle of directories the recursion goes too deep,
    whatever depth it is given. *)
Lemma cyclic_walk_too_deep (fuel : nat) (path : string) :
  (ParseImageDir (H := sample_runtime) fuel cyclic_collector cyclic_volume 2
     path false fresh_state).1.1 = Raise RuntimeError.
Proof.
  revert path. induction fuel as [|fuel IH]; intros path; [done|].
  cbn [ParseImageDir].
  erewrite run_bind_Return by reflexivity. cbv beta iota.
  erewrite run_bind_Return by reflexivity. cbv beta.
  cbn [fst snd app for_each].
  specialize (IH (os_path_join path "loop")).
  destruct (ParseImageDir fuel cyclic_collector cyclic_volume 2
              (os_path_join path "loop") false fresh_state)
    as [[o s1] t1] eqn:Hwalk.
  simpl in IH. subst o. by erewrite run_bind_Raise by exact Hwalk.
Qed.

Example cyclic_volume_raises_RuntimeError (fuel : nat) :
  (SimpleImageCollector_Collect (H := sample_runtime) fuel cyclic_collector
     fresh_state).1.1 = Raise RuntimeError.
Proof.
  pose proof (cyclic_walk_too_deep fuel "/") as Hwalk.
  destruct (ParseImageDir (H := sample_runtime) fuel cyclic_collector
              cyclic_volume 2 "/" false fresh_state) as [[o s1] t1] eqn:Hw.
  simpl in Hwalk. subst o. unfold SimpleImageCollector_Collect.
  erewrite run_bind_Return by reflexivity. cbv beta.
  erewrite run_bind_Return by reflexivity. cbv beta.
  erewrite run_bind_Raise; [done|].
  unfold try_except, fscache_Open. unfold_M. unfold_M.
  cbn [cyclic_collector _fscache _image _offset _offset_bytes fst snd
       fs_root_inum cyclic_volume].
  change os_path_sep with "/". by rewrite Hw.
Qed.

(** Collect, lines 166 to 191 and 379 to 405. SimpleImageCollector.Collect
    comes to an end in every state: it returns, or one of three exceptions
    leaves it, and no other: the UnboundLocalError of the entry handler, the
    NameError of the store loop, and the RuntimeError of a walk whose
    recursion goes too deep. IOError, UnableToOpenFilesystem and
    AttributeError are all handled or cannot arise, since Collect creates the
    hash list before it is read. The RuntimeError does not arise when every
    volume the cache opens has directories without a cycle (a rank) and the
    depth is at least twice the rank of its root, plus two.
    TargetedImageCollector.Collect, which walks no volume, returns or raises
    the NameError. *)
Theorem Collect_raises_only `{Runtime} (fuel : nat) (self : SimpleImageCollector)
    (file_filter : string) (s : State) :
  let simple := (SimpleImageCollector_Collect fuel self s).1.1 in
  let targeted :=
    (TargetedImageCollector_Collect fuel
       {| super := self; _file_filter := file_filter |} s).1.1 in
  (simple = Return tt ∨ simple = Raise (UnboundLocalError "name_str") ∨
   simple = Raise (NameError "vss_numbers") ∨ simple = Raise RuntimeError) ∧
  ((∀ image_path offset store_nr fs,
      _fscache self image_path offset store_nr = Some fs →
      ∃ rank, ranked fs rank ∧ (2 * rank (fs_root_inum fs) + 2 ≤ fuel)%nat) →
   simple ≠ Raise RuntimeError) ∧
  (targeted = Return tt ∨ targeted = Raise (NameError "vss_numbers")).
Proof.
  intros simple targeted. split; [|split].
  - assert (Hends : avoids (λ _, False) (SimpleImageCollector_Collect fuel self))
      by (apply avoids_SimpleImageCollector_Collect; by intros []).
    destruct (Hends s) as [Hend _]. subst simple.
    destruct (SimpleImageCollector_Collect fuel self s) as [[[[]|e|] s'] t]
      eqn:Hcollect; simpl in *; [by left| |done].
    pose proof (proj1 (Collect_raises fuel self file_filter s e)) as Hraises.
    rewrite Hcollect in Hraises.
    destruct (Hraises eq_refl) as [->|[->| ->]]; auto.
  - intros Hdeep Hraise.
    assert (Hends : avoids (λ e, e = RuntimeError)
                      (SimpleImageCollector_Collect fuel self)).
    { by apply avoids_SimpleImageCollector_Collect. }
    by apply (proj2 (Hends s) RuntimeError).
  - destruct (TargetedImageCollector_Collect_run fuel
                {| super := self; _file_filter := file_filter |} s)
      as (o & rest & Hrun & Ho & _).
    pose proof (λ e, proj2 (Collect_raises fuel self file_filter s e))
      as Hraises.
    subst targeted. rewrite Hrun in Hraises |- *. simpl in *.
    destruct o as [[]|e|]; [by left| |done].
    right. by rewrite (Hraises e eq_refl).
Qed.

(** The sample image, whose volumes all have rank 1 at the root: depth 4 is
    enough, and Collect ends on the NameError. *)
Lemma Collect_raises_only_witness :
  (SimpleImageCollector_Collect (H := sample_runtime) 4
     (sample_collector true None) fresh_state).1.1 ≠ Raise RuntimeError ∧
  (SimpleImageCollector_Collect (H := sample_runtime) 4
     (sample_collector true None) fresh_state).1.1
  = Raise (NameError "vss_numbers").
Proof.
  split; [|by vm_compute].
  apply (Collect_raises_only (H := sample_runtime) 4 (sample_collector true None)
           "filter.txt" fresh_state).
  intros image_path offset store_nr fs [= <-]. exists sample_rank.
  split; [apply sample_volume_ranked|]. vm_compute. repeat constructor.
Defined.
